(** * buildhub [to_kinto]: a shallow embedding of jobs/buildhub/to_kinto.py

    The script reads JSON records, hashes them to detect unchanged ones,
    batches them through a queue and publishes each batch on a Kinto server.
    The embedding below follows the Python functions one by one:
    [hash_record], [hash_record_mutate], [fetch_existing], [publish_records],
    [produce] and [consume] (with its local [record_unchanged]). *)

From Stdlib Require Import ZArith NArith List Strings.String Strings.Ascii.
From Stdlib Require Import DecimalString Permutation Sorting.Sorted.
From stdpp Require Import base tactics option list sorting.
Import ListNotations.

Local Open Scope Z_scope.

(** ** Python values

    Everything the script handles comes out of [json.loads] or out of a JSON
    HTTP response, so the universe of values is the one of JSON documents. *)

(** A Python [str] is a sequence of Unicode code points. *)
Definition str : Type := list N.

(** Code points of a string literal of the source (all of them are ASCII). *)
Definition lit (s : string) : str :=
  map (fun a : ascii => N_of_ascii a) (list_ascii_of_string s).
Arguments lit s%_string.

(** A [float] is carried by the text of its [float.__repr__], which is what
    both [json.dumps] and the comparison with the small integers below look
    at ("412.0", "1e+16", "nan", "inf", "-inf").  A [dict] keeps its items in
    insertion order; its keys are strings, as in every JSON object. *)
#[warnings="-register-all"] Inductive value : Type :=
| VNone
| VBool (b : bool)
| VInt (n : Z)
| VFloat (repr : str)
| VStr (s : str)
| VList (l : list value)
| VDict (d : list (str * value)).

Definition dict : Type := list (str * value).

(** The exceptions the modelled code can raise.  [NonStringKey] is not a
    Python exception: it marks the one thing the model does not represent, a
    dictionary that would get a key which is a number, a boolean or [None]. *)
Inductive exn : Type :=
| KeyError (key : str)
| TypeError
| AttributeError
| ValueError (msg : str)
| UnicodeEncodeError
| NonStringKey.

Inductive outcome (A : Type) : Type :=
| Ok (a : A)
| Raise (e : exn).
Arguments Ok {A} a.
Arguments Raise {A} e.

Definition bind {A B} (m : outcome A) (k : A -> outcome B) : outcome B :=
  match m with
  | Ok a => k a
  | Raise e => Raise e
  end.

Declare Scope py_scope.
Delimit Scope py_scope with py.
Notation "x <- m ;; k" := (bind m (fun x => k))
  (at level 100, m at next level, right associativity) : py_scope.
Local Open Scope py_scope.

(** *** dict operations *)

Definition str_eqb (a b : str) : bool := bool_decide (a = b).

(** [d.get(k)] *)
Fixpoint dict_get (k : str) (d : dict) : option value :=
  match d with
  | [] => None
  | (k', v) :: d' => if str_eqb k k' then Some v else dict_get k d'
  end.

(** [k in d] *)
Definition dict_mem (k : str) (d : dict) : bool :=
  match dict_get k d with Some _ => true | None => false end.

(** [d.pop(k, None)], for the dictionary it leaves behind. *)
Definition dict_pop (k : str) (d : dict) : dict :=
  List.filter (fun kv => negb (str_eqb k (fst kv))) d.

(** [d[k] = v]: an existing key keeps its place, a new one goes last. *)
Fixpoint dict_set (k : str) (v : value) (d : dict) : dict :=
  match d with
  | [] => [(k, v)]
  | (k', v') :: d' =>
      if str_eqb k k' then (k, v) :: d' else (k', v') :: dict_set k v d'
  end.

(** [v[k]] for a string [k]: a lookup in a dict, a [TypeError] on anything
    else (lists and strings take integer indices only, the rest is not
    subscriptable). *)
Definition getitem (v : value) (k : str) : outcome value :=
  match v with
  | VDict d =>
      match dict_get k d with
      | Some x => Ok x
      | None => Raise (KeyError k)
      end
  | _ => Raise TypeError
  end.

(** [v == s] for a string [s]: only an equal string is equal to it. *)
Definition eq_str (v : value) (s : str) : bool :=
  match v with
  | VStr s' => str_eqb s' s
  | _ => false
  end.

(** Decimal text of an integer, as [str(n)] prints it. *)
Definition str_of_Z (n : Z) : str := lit (NilZero.string_of_int (Z.to_int n)).

(** [v == n] for an integer [n] with [0 < |n| < 10^16]: an equal [int], the
    [bool] that counts for it ([True == 1]), or the [float] of that value,
    whose repr is the integer followed by [.0]. *)
Definition eq_int (v : value) (n : Z) : bool :=
  match v with
  | VInt m => m =? n
  | VBool b => (if b then 1 else 0) =? n
  | VFloat r => str_eqb r (str_of_Z n ++ lit ".0")
  | _ => false
  end.

(** [needle in hay] for two strings: a substring test. *)
Fixpoint str_prefixb (p s : str) : bool :=
  match p, s with
  | [], _ => true
  | _ :: _, [] => false
  | a :: p', b :: s' => (a =? b)%N && str_prefixb p' s'
  end.

Fixpoint str_infix (needle hay : str) : bool :=
  str_prefixb needle hay ||
  match hay with
  | [] => false
  | _ :: hay' => str_infix needle hay'
  end.

(** [k in v] for a string [k]: key membership on a dict, element membership
    on a list, substring on a string; the other values are not containers. *)
Definition contains (k : str) (v : value) : outcome bool :=
  match v with
  | VDict d => Ok (dict_mem k d)
  | VList l => Ok (existsb (fun x => eq_str x k) l)
  | VStr s => Ok (str_infix k s)
  | _ => Raise TypeError
  end.

(** ** hashlib.md5 (RFC 1321) on 32-bit words held in [Z] *)
Module MD5.

Definition w32 (x : Z) : Z := x mod 2 ^ 32.

Definition rotl (x c : Z) : Z :=
  w32 (Z.lor (Z.shiftl x c) (Z.shiftr x (32 - c))).

Definition lnot32 (x : Z) : Z := Z.lxor x 0xffffffff.

Definition shifts : list Z :=
  [7; 12; 17; 22; 7; 12; 17; 22; 7; 12; 17; 22; 7; 12; 17; 22;
   5; 9; 14; 20; 5; 9; 14; 20; 5; 9; 14; 20; 5; 9; 14; 20;
   4; 11; 16; 23; 4; 11; 16; 23; 4; 11; 16; 23; 4; 11; 16; 23;
   6; 10; 15; 21; 6; 10; 15; 21; 6; 10; 15; 21; 6; 10; 15; 21].

(** [floor (2^32 * abs (sin (i + 1)))] for [i] from 0 to 63. *)
Definition sines : list Z :=
  [0xd76aa478; 0xe8c7b756; 0x242070db; 0xc1bdceee;
   0xf57c0faf; 0x4787c62a; 0xa8304613; 0xfd469501;
   0x698098d8; 0x8b44f7af; 0xffff5bb1; 0x895cd7be;
   0x6b901122; 0xfd987193; 0xa679438e; 0x49b40821;
   0xf61e2562; 0xc040b340; 0x265e5a51; 0xe9b6c7aa;
   0xd62f105d; 0x02441453; 0xd8a1e681; 0xe7d3fbc8;
   0x21e1cde6; 0xc33707d6; 0xf4d50d87; 0x455a14ed;
   0xa9e3e905; 0xfcefa3f8; 0x676f02d9; 0x8d2a4c8a;
   0xfffa3942; 0x8771f681; 0x6d9d6122; 0xfde5380c;
   0xa4beea44; 0x4bdecfa9; 0xf6bb4b60; 0xbebfbc70;
   0x289b7ec6; 0xeaa127fa; 0xd4ef3085; 0x04881d05;
   0xd9d4d039; 0xe6db99e5; 0x1fa27cf8; 0xc4ac5665;
   0xf4292244; 0x432aff97; 0xab9423a7; 0xfc93a039;
   0x655b59c3; 0x8f0ccc92; 0xffeff47d; 0x85845dd1;
   0x6fa87e4f; 0xfe2ce6e0; 0xa3014314; 0x4e0811a1;
   0xf7537e82; 0xbd3af235; 0x2ad7d2bb; 0xeb86d391].

(** Little-endian bytes of a word, and back. *)
Fixpoint le_bytes (n : nat) (x : Z) : list Z :=
  match n with
  | O => []
  | S n' => (x mod 256) :: le_bytes n' (x / 256)
  end.

Fixpoint le_word (bs : list Z) : Z :=
  match bs with
  | [] => 0
  | b :: bs' => b + 256 * le_word bs'
  end.

(** The message, a 1 bit, zeros up to 56 modulo 64, then the bit length on
    eight bytes. *)
Definition pad (msg : list Z) : list Z :=
  let len := Z.of_nat (length msg) in
  let zeros := Z.to_nat ((55 - len) mod 64) in
  msg ++ [0x80] ++ repeat 0 zeros ++ le_bytes 8 ((8 * len) mod 2 ^ 64).

Fixpoint chunks (fuel : nat) (n : nat) (bs : list Z) : list (list Z) :=
  match fuel, bs with
  | O, _ | _, [] => []
  | S fuel', _ => firstn n bs :: chunks fuel' n (skipn n bs)
  end.

Definition words (block : list Z) : list Z :=
  map le_word (chunks 16 4 block).

Record state : Type := State { sa : Z; sb : Z; sc : Z; sd : Z }.

Definition init : state :=
  State 0x67452301 0xefcdab89 0x98badcfe 0x10325476.

Definition round (m : list Z) (st : state) (i : Z) : state :=
  let '(State a b c d) := st in
  let '(f, g) :=
    if i <? 16 then (Z.lor (Z.land b c) (Z.land (lnot32 b) d), i)
    else if i <? 32 then
      (Z.lor (Z.land d b) (Z.land (lnot32 d) c), (5 * i + 1) mod 16)
    else if i <? 48 then (Z.lxor (Z.lxor b c) d, (3 * i + 5) mod 16)
    else (Z.lxor c (Z.lor b (lnot32 d)), (7 * i) mod 16) in
  let f' := w32 (f + a + nth (Z.to_nat i) sines 0 + nth (Z.to_nat g) m 0) in
  State d (w32 (b + rotl f' (nth (Z.to_nat i) shifts 0))) b c.

Definition compress (st : state) (block : list Z) : state :=
  let m := words block in
  let st' := fold_left (round m) (map Z.of_nat (seq 0 64)) st in
  State (w32 (sa st + sa st')) (w32 (sb st + sb st'))
        (w32 (sc st + sc st')) (w32 (sd st + sd st')).

Definition digest (msg : list Z) : list Z :=
  let p := pad msg in
  let st := fold_left compress (chunks (length p) 64 p) init in
  le_bytes 4 (sa st) ++ le_bytes 4 (sb st) ++
  le_bytes 4 (sc st) ++ le_bytes 4 (sd st).

Definition hex_digit (n : Z) : N :=
  Z.to_N (if n <? 10 then 48 + n else 87 + n).

Definition hex_byte (b : Z) : str := [hex_digit (b / 16); hex_digit (b mod 16)].

(** [hashlib.md5(msg).hexdigest()] *)
Definition hexdigest (msg : list Z) : str := concat (map hex_byte (digest msg)).

End MD5.

(** ** str.encode('utf-8') *)

Definition utf8_char (c : N) : outcome (list Z) :=
  let z := Z.of_N c in
  if z <? 0x80 then Ok [z]
  else if z <? 0x800 then Ok [0xc0 + z / 64; 0x80 + z mod 64]
  else if (0xd800 <=? z) && (z <=? 0xdfff) then Raise UnicodeEncodeError
  else if z <? 0x10000 then
    Ok [0xe0 + z / 4096; 0x80 + (z / 64) mod 64; 0x80 + z mod 64]
  else
    Ok [0xf0 + z / 262144; 0x80 + (z / 4096) mod 64;
        0x80 + (z / 64) mod 64; 0x80 + z mod 64].

Fixpoint encode_utf8 (s : str) : outcome (list Z) :=
  match s with
  | [] => Ok []
  | c :: s' =>
      bs <- utf8_char c ;;
      rest <- encode_utf8 s' ;;
      Ok (bs ++ rest)
  end.

(** ** json.dumps(v, sort_keys=...) with the default [ensure_ascii=True] and
    the default separators *)

Definition hex_nibble (n : N) : N := (if n <? 10 then 48 + n else 87 + n)%N.

(** ['\\u{0:04x}'.format(c)] *)
Definition escape_u (c : N) : str :=
  lit "\u" ++ [hex_nibble (c / 4096 mod 16); hex_nibble (c / 256 mod 16);
               hex_nibble (c / 16 mod 16); hex_nibble (c mod 16)]%N.

Definition escape_char (c : N) : str :=
  (if c =? 34 then [92; 34]
   else if c =? 92 then [92; 92]
   else if c =? 8 then lit "\b"
   else if c =? 12 then lit "\f"
   else if c =? 10 then lit "\n"
   else if c =? 13 then lit "\r"
   else if c =? 9 then lit "\t"
   else if (32 <=? c) && (c <=? 126) then [c]
   else if c <? 0x10000 then escape_u c
   else
     let n := c - 0x10000 in
     escape_u (N.lor 0xd800 (N.land (N.shiftr n 10) 0x3ff)) ++
     escape_u (N.lor 0xdc00 (N.land n 0x3ff)))%N.

Definition encode_basestring_ascii (s : str) : str :=
  [34%N] ++ concat (map escape_char s) ++ [34%N].

(** [float.__repr__], except for the three values JSON has no number for. *)
Definition floatstr (repr : str) : str :=
  if str_eqb repr (lit "nan") then lit "NaN"
  else if str_eqb repr (lit "inf") then lit "Infinity"
  else if str_eqb repr (lit "-inf") then lit "-Infinity"
  else repr.

(** [sep.join(l)] *)
Fixpoint join (sep : str) (l : list str) : str :=
  match l with
  | [] => []
  | [x] => x
  | x :: l' => x ++ sep ++ join sep l'
  end.

(** Order of Python strings: lexicographic on code points. *)
Fixpoint str_leb (a b : str) : bool :=
  match a, b with
  | [], _ => true
  | _ :: _, [] => false
  | x :: a', y :: b' =>
      if (x <? y)%N then true
      else if (x =? y)%N then str_leb a' b'
      else false
  end.

(** Items of a dict compared on their keys (the keys of a dict are distinct,
    so the values never take part in the sort). *)
Definition key_le {A} (p q : str * A) : Prop := str_leb (fst p) (fst q).

Definition sort_items {A} (sort_keys : bool) (items : list (str * A))
  : list (str * A) :=
  if sort_keys then merge_sort key_le items else items.

(** The encoder sorts the items of a dict and then encodes each value; here
    the values are encoded first and the encoded items sorted, which visits
    the same items in the same order. *)
Fixpoint json_dumps (sort_keys : bool) (v : value) : str :=
  match v with
  | VNone => lit "null"
  | VBool true => lit "true"
  | VBool false => lit "false"
  | VInt n => str_of_Z n
  | VFloat r => floatstr r
  | VStr s => encode_basestring_ascii s
  | VList l =>
      lit "[" ++ join (lit ", ") (map (json_dumps sort_keys) l) ++ lit "]"
  | VDict d =>
      let items := map (fun kv => (fst kv, json_dumps sort_keys (snd kv))) d in
      lit "{" ++
      join (lit ", ")
        (map (fun kv => encode_basestring_ascii (fst kv) ++ lit ": " ++ snd kv)
             (sort_items sort_keys items)) ++
      lit "}"
  end.

(** ** hash_record and hash_record_mutate on values

    [hash_record_mutate] changes the dict it is given.  On values this is
    explicit: the function returns the digest together with the record as the
    call leaves it.  [Obj] below does the same on a shared store. *)

(** [record.pop(k, None)] on any value: lists take an index only, the other
    values have no [pop]. *)
Definition pop (k : str) (record : value) : outcome value :=
  match record with
  | VDict d => Ok (VDict (dict_pop k d))
  | VList _ => Raise TypeError
  | _ => Raise AttributeError
  end.

Definition md5_hexdigest (s : str) : outcome str :=
  bs <- encode_utf8 s ;;
  Ok (MD5.hexdigest bs).

Definition hash_record_mutate (record : value) : outcome (str * value) :=
  record <- pop (lit "last_modified") record ;;
  record <- pop (lit "schema") record ;;
  h <- md5_hexdigest (json_dumps true record) ;;
  Ok (h, record).

(** [copy.deepcopy] of a JSON value is the same value in a new object. *)
Definition deepcopy (v : value) : value := v.

Definition hash_record (record : value) : outcome str :=
  r <- hash_record_mutate (deepcopy record) ;;
  Ok (fst r).

(** ** The same two functions on a store of objects

    Python passes the record by reference.  A store holds the objects in
    allocation order and a reference is an index into it; a computation takes
    the store and returns its outcome with the store it leaves.  The fields of
    an object are held by value: the code only ever removes top-level keys. *)
Module Obj.

Definition ref : Type := nat.
Definition store : Type := list value.
Definition M (A : Type) : Type := store -> outcome A * store.

Definition bindM {A B} (m : M A) (k : A -> M B) : M B :=
  fun st =>
    match m st with
    | (Ok a, st') => k a st'
    | (Raise e, st') => (Raise e, st')
    end.

Notation "x <~ m ;; k" := (bindM m (fun x => k))
  (at level 100, m at next level, right associativity) : py_scope.

(** The object a live reference points to (references are never dangling in
    Python; one that is reads as [None]). *)
Definition deref (r : ref) (st : store) : value := default VNone (st !! r).

(** [record.pop(k, None)], in place. *)
Definition pop_at (k : str) (record : ref) : M unit :=
  fun st =>
    match pop k (deref record st) with
    | Ok v' => (Ok tt, <[record := v']> st)
    | Raise e => (Raise e, st)
    end.

(** [hashlib.md5(json.dumps(record, sort_keys=True).encode('utf-8')).hexdigest()] *)
Definition dumps_md5 (record : ref) : M str :=
  fun st => (md5_hexdigest (json_dumps true (deref record st)), st).

(** [copy.deepcopy(record)]: a new object with the same content. *)
Definition deepcopy (record : ref) : M ref :=
  fun st => (Ok (length st), st ++ [deref record st]).

Definition hash_record_mutate (record : ref) : M str :=
  _ <~ pop_at (lit "last_modified") record ;;
  _ <~ pop_at (lit "schema") record ;;
  dumps_md5 record.

Definition hash_record (record : ref) : M str :=
  copy <~ deepcopy record ;;
  hash_record_mutate copy.

End Obj.

(** ** fetch_existing

    The file and network sides (reading the cache file, the ETag of the
    previous run, paging, the atomic rewrite) are left out: the function takes
    the [records] loaded from the cache file, or the empty dict, and the
    batches of records the server returns, and runs the loop that fills
    [records]. *)

(** [records[key] = v] for a key that is any value. *)
Definition setitem (records : dict) (key : value) (v : value) : outcome dict :=
  match key with
  | VStr s => Ok (dict_set s v records)
  | VList _ | VDict _ => Raise TypeError
  | _ => Raise NonStringKey
  end.

(** The assignment of lines 142-145: the right-hand side is evaluated first
    (so the [id] is read from the record [hash_record_mutate] has changed). *)
Definition store_record (records : dict) (record : value) : outcome dict :=
  last_modified <- getitem record (lit "last_modified") ;;
  hr <- hash_record_mutate record ;;
  id <- getitem (snd hr) (lit "id") ;;
  setitem records id (VList [last_modified; VStr (fst hr)]).

Fixpoint store_records (records : dict) (new_records : list value)
  : outcome dict :=
  match new_records with
  | [] => Ok records
  | record :: rest =>
      records' <- store_record records record ;;
      store_records records' rest
  end.

Fixpoint fetch_existing (records : dict) (new_records_batches : list (list value))
  : outcome dict :=
  match new_records_batches with
  | [] => Ok records
  | new_records :: rest =>
      records' <- store_records records new_records ;;
      fetch_existing records' rest
  end.

(** ** publish_records *)

(** What the batch holds for one record. *)
Inductive operation : Type :=
| update_record (record : value)
| create_record (record : value).

(** The Kinto client, as far as [publish_records] uses it: the operations of
    one batch go out in one call and [batch.results()] is the list of their
    sub-results. *)
Definition client : Type := list operation -> list value.

Fixpoint batch_operations (records : list value) : outcome (list operation) :=
  match records with
  | [] => Ok []
  | record :: rest =>
      data <- getitem record (lit "data") ;;
      has_id <- contains (lit "id") data ;;
      ops <- batch_operations rest ;;
      Ok ((if has_id then update_record record else create_record record)
            :: ops)
  end.

(** [result.get('code')] *)
Definition get_code (result : value) : outcome value :=
  match result with
  | VDict d => Ok (default VNone (dict_get (lit "code") d))
  | _ => Raise AttributeError
  end.

Definition is_none (v : value) : bool :=
  match v with VNone => true | _ => false end.

Definition newline : str := [10%N].

Section Publish.

(** The built-in [str()], which is what [format] and [format_map] apply to
    the values they insert. *)
Variable py_str : value -> str.

(** ["Record '{details[existing][id]}' already exists: {details[existing]}"
    .format_map(result)] *)
Definition format_conflict (result : value) : outcome str :=
  details <- getitem result (lit "details") ;;
  existing <- getitem details (lit "existing") ;;
  id <- getitem existing (lit "id") ;;
  details' <- getitem result (lit "details") ;;
  existing' <- getitem details' (lit "existing") ;;
  Ok (lit "Record '" ++ py_str id ++ lit "' already exists: " ++
      py_str existing').

(** The loop of lines 176-186, with [error_msgs] as accumulator. *)
Fixpoint collect_errors (results : list value) (error_msgs : list str)
  : outcome (list str) :=
  match results with
  | [] => Ok error_msgs
  | result :: rest =>
      error_status <- get_code result ;;
      if eq_int error_status 412 then
        error_msg <- format_conflict result ;;
        collect_errors rest (error_msgs ++ [error_msg])
      else if eq_int error_status 400 then
        collect_errors rest
          (error_msgs ++ [lit "Invalid record: " ++ py_str result])
      else if negb (is_none error_status) then
        collect_errors rest (error_msgs ++ [lit "Error: " ++ py_str result])
      else collect_errors rest error_msgs
  end.

Definition publish_records (c : client) (records : list value)
  : outcome (list value) :=
  ops <- batch_operations records ;;
  let results := c ops in
  error_msgs <- collect_errors results [] ;;
  match error_msgs with
  | [] => Ok results
  | _ => Raise (ValueError (join newline error_msgs))
  end.

End Publish.

(** ** produce *)

(** What travels through the queue: a record, or the [done] sentinel. *)
Inductive item : Type :=
| Record_ (record : value)
| Done.

Definition has_payload (record : value) : outcome bool :=
  has_data <- contains (lit "data") record ;;
  if has_data then Ok true else contains (lit "permission") record.

(** [records] is what the asynchronous generator yields; [queue] is the
    unbounded FIFO queue, oldest item first.  The function returns how the
    coroutine ends and the queue it leaves. *)
Fixpoint produce (records : list value) (queue : list item)
  : outcome unit * list item :=
  match records with
  | [] => (Ok tt, queue ++ [Done])
  | record :: rest =>
      match has_payload record with
      | Raise e => (Raise e, queue)
      | Ok false =>
          (Raise (ValueError (lit "Invalid record (missing 'data' attribute)")),
           queue)
      | Ok true => produce rest (queue ++ [Record_ record])
      end
  end.

(** ** consume *)

(** [key in existing], for the dict of string keys [existing]. *)
Definition key_in (key : value) (existing : dict) : outcome bool :=
  match key with
  | VStr s => Ok (dict_mem s existing)
  | VList _ | VDict _ => Raise TypeError
  | _ => Ok false
  end.

(** [existing.get(key)], after [key in existing] has passed. *)
Definition get_or_none (key : value) (existing : dict) : value :=
  match key with
  | VStr s => default VNone (dict_get s existing)
  | _ => VNone
  end.

Definition record_unchanged (existing : dict) (record : value) : outcome bool :=
  id <- getitem record (lit "id") ;;
  known <- key_in id existing ;;
  if known then
    id' <- getitem record (lit "id") ;;
    h <- hash_record record ;;
    Ok (eq_str (get_or_none id' existing) h)
  else Ok false.

(** What the consumer meets when it awaits [queue.get()] under the timeout:
    the next item of the queue, or the timeout. *)
Inductive event : Type :=
| Get (x : item)
| Timeout.

(** The consumer between two events: the batch being filled, the batches
    handed to the executor so far (each one is one [publish_records] call),
    and how many times the consumer itself called [queue.task_done()]. *)
Record consumer : Type := Consumer {
  batch : list value;
  dispatched : list (list value);
  task_done : nat
}.

Inductive status : Type :=
| Waiting (c : consumer)
| Failed (e : exn) (c : consumer)
| Spinning.

(** Lines 265-269, followed by the [batch = []] of the next round. *)
Definition dispatch (c : consumer) : consumer :=
  match batch c with
  | [] => c
  | b => Consumer [] (dispatched c ++ [b]) (task_done c)
  end.

Definition mark_done (c : consumer) : consumer :=
  Consumer (batch c) (dispatched c) (S (task_done c)).

(** Lines 244-249: is the record skipped?  The f-string of the debug message
    is evaluated before [task_done] is called, and it reads [record['id']] on
    the queued item. *)
Definition skip_unchanged (existing : dict) (record : value) : outcome bool :=
  data <- getitem record (lit "data") ;;
  unchanged <- record_unchanged existing data ;;
  if unchanged then
    _ <- getitem record (lit "id") ;;
    Ok true
  else Ok false.

(** The two nested loops, driven by the events; [ideal_batch_size] is
    positive and the batch of [c] is shorter than it. *)
Fixpoint consume_events (ideal_batch_size : Z) (existing : dict)
    (events : list event) (c : consumer) : status :=
  match events with
  | [] => Waiting c
  | Timeout :: rest =>
      consume_events ideal_batch_size existing rest (dispatch c)
  | Get Done :: rest =>
      consume_events ideal_batch_size existing rest (dispatch (mark_done c))
  | Get (Record_ record) :: rest =>
      match skip_unchanged existing record with
      | Raise e => Failed e c
      | Ok true => consume_events ideal_batch_size existing rest (mark_done c)
      | Ok false =>
          let c' := Consumer (batch c ++ [record]) (dispatched c) (task_done c) in
          consume_events ideal_batch_size existing rest
            (if Z.of_nat (length (batch c')) <? ideal_batch_size
             then c' else dispatch c')
      end
  end.

(** [BATCH_MAX_REQUESTS] is the configured maximum (9999 by default) and
    [batch_max_requests] the integer [info['settings']['batch_max_requests']]
    of the server.  With a size that is not positive the inner loop never
    runs and the outer one never awaits. *)
Definition consume (BATCH_MAX_REQUESTS batch_max_requests : Z)
    (existing : dict) (events : list event) : status :=
  let ideal_batch_size := Z.min BATCH_MAX_REQUESTS batch_max_requests in
  if 0 <? ideal_batch_size
  then consume_events ideal_batch_size existing events (Consumer [] [] 0)
  else Spinning.

(** ** Words of the specification *)

(** The record without its two volatile fields. *)
Definition stripVolatile (record : dict) : dict :=
  dict_pop (lit "schema") (dict_pop (lit "last_modified") record).

(** Two values with the same content: they differ at most in the order in
    which the keys of their dicts, at any depth, were inserted. *)
#[warnings="-register-all"] Inductive same_json : value -> value -> Prop :=
| same_refl (v : value) : same_json v v
| same_list (l1 l2 : list value) :
    Forall2 same_json l1 l2 -> same_json (VList l1) (VList l2)
| same_dict (d1 d d2 : dict) :
    NoDup (map fst d1) ->
    d1 ≡ₚ d ->
    Forall2 (fun p q => fst p = fst q /\ same_json (snd p) (snd q)) d d2 ->
    same_json (VDict d1) (VDict d2).

(** An item with a [data] or a [permission] key. *)
Definition carries_payload (record : dict) : Prop :=
  dict_mem (lit "data") record = true \/
  dict_mem (lit "permission") record = true.

(** The error code a sub-result carries, if it carries one. *)
Definition error_code (result : value) : option value :=
  match result with
  | VDict d =>
      match dict_get (lit "code") d with
      | Some VNone | None => None
      | Some code => Some code
      end
  | _ => None
  end.

Definition erroneous (result : value) : bool :=
  match error_code result with Some _ => true | None => false end.

(** The existing record a conflict reports under [details.existing], with
    its [id]. *)
Definition conflicting (result : value) : option (value * value) :=
  match result with
  | VDict d =>
      match dict_get (lit "details") d with
      | Some (VDict details) =>
          match dict_get (lit "existing") details with
          | Some (VDict existing) =>
              match dict_get (lit "id") existing with
              | Some id => Some (VDict existing, id)
              | None => None
              end
          | _ => None
          end
      | _ => None
      end
  | _ => None
  end.

(** A sub-result as the server sends it: a JSON object, which names the
    existing record when its code is 412. *)
Definition well_formed (result : value) : Prop :=
  (exists d, result = VDict d) /\
  (forall code, error_code result = Some code -> eq_int code 412 = true ->
                conflicting result <> None).

(** How one erroneous sub-result is described in the aggregated failure. *)
Definition describe (py_str : value -> str) (result : value) : str :=
  match error_code result with
  | None => []
  | Some code =>
      if eq_int code 412 then
        match conflicting result with
        | Some (existing, id) =>
            lit "Record '" ++ py_str id ++ lit "' already exists: " ++
            py_str existing
        | None => []
        end
      else if eq_int code 400 then lit "Invalid record: " ++ py_str result
      else lit "Error: " ++ py_str result
  end.

(** An entry of the hash cache as [fetch_existing] stores it. *)
Definition cache_entry (v : value) : Prop :=
  exists last_modified h, v = VList [last_modified; VStr h].

Definition cache_store (existing : dict) : Prop :=
  forall k v, dict_get k existing = Some v -> cache_entry v.

(** The records and the [done] sentinels among the events of a run. *)
Fixpoint records_of (events : list event) : list value :=
  match events with
  | [] => []
  | Get (Record_ record) :: rest => record :: records_of rest
  | _ :: rest => records_of rest
  end.

Fixpoint sentinels_of (events : list event) : nat :=
  match events with
  | [] => O
  | Get Done :: rest => S (sentinels_of rest)
  | _ :: rest => sentinels_of rest
  end.

(** ** A run on two unchanged records

    The server holds [{"id": "a", "last_modified": 5, "title": "x"}]; the
    input has the line [{"data": {"id": "a", "title": "x"}}] twice. *)
Definition remote_a : value :=
  VDict [(lit "id", VStr (lit "a")); (lit "last_modified", VInt 5);
         (lit "title", VStr (lit "x"))].

Definition data_a : value :=
  VDict [(lit "id", VStr (lit "a")); (lit "title", VStr (lit "x"))].

Definition entry_a : value := VDict [(lit "data", data_a)].

Definition hash_a : str := lit "2bb636ed308bdf7f17a9dce93673b128".

(** The hash cache [fetch_existing] builds from that server. *)
Definition store_a : dict := [(lit "a", VList [VInt 5; VStr hash_a])].

(** Expected texts are written with ['] where the output has a double
    quote. *)
Definition dq (s : str) : str :=
  map (fun c => if (c =? 39)%N then 34%N else c) s.

(** ** The full scan of fetch_existing (lines 118-145)

    [client.session.request('get', endpoint, params=params)] gives the body
    of the response and its headers.  Of the headers only
    [headers['Next-Page']] is read: it is [None] here when that lookup raises
    [KeyError]. *)
Definition session : Type := str -> dict -> value * option str.

(** [for record in new_records] *)
Definition iterate (new_records : value) : outcome (list value) :=
  match new_records with
  | VList l => Ok l
  | VDict d => Ok (map (fun kv => VStr (fst kv)) d)
  | VStr s => Ok (map (fun c => VStr [c]) s)
  | _ => Raise TypeError
  end.

(** The generator [new_records_iterator] and the loop that consumes it, page
    by page: the records of a page are stored before the next page is
    requested.  [fuel] bounds the number of requests; the result is [None]
    when the scan needs more. *)
Fixpoint scan_pages (fuel : nat) (request : session) (endpoint : str)
    (params : dict) (records : dict) : option (outcome dict) :=
  match fuel with
  | O => None
  | S fuel' =>
      let '(record_resp, next_page) := request endpoint params in
      match (data <- getitem record_resp (lit "data") ;;
             new_records <- iterate data ;;
             store_records records new_records) with
      | Raise e => Some (Raise e)
      | Ok records' =>
          match next_page with
          | Some (c :: rest) =>
              scan_pages fuel' request (c :: rest)
                (dict_pop (lit "_since") params) records'
          | _ => Some (Ok records')
          end
      end
  end.

(** [fetch_existing] when there is no cache file: [records] starts empty and
    the first request carries [_since=None]. *)
Definition fetch_existing_scan (fuel : nat) (request : session)
    (records_endpoint : str) : option (outcome dict) :=
  scan_pages fuel request records_endpoint [(lit "_since", VNone)] [].

(** A server that answers [endpoint] with the pages [pages], one request
    each, linked by [Next-Page]. *)
Inductive serves (request : session) : str -> dict -> list (list value) -> Prop :=
| serves_last (endpoint : str) (params : dict) (body : value)
    (next_page : option str) (page : list value) :
    request endpoint params = (body, next_page) ->
    (next_page = None \/ next_page = Some []) ->
    getitem body (lit "data") = Ok (VList page) ->
    serves request endpoint params [page]
| serves_next (endpoint : str) (params : dict) (body : value)
    (c : N) (next : str) (page : list value) (pages : list (list value)) :
    request endpoint params = (body, Some (c :: next)) ->
    getitem body (lit "data") = Ok (VList page) ->
    serves request (c :: next) (dict_pop (lit "_since") params) pages ->
    serves request endpoint params (page :: pages).

(** ** More words for the properties *)

(** A lower-case hexadecimal digit. *)
Definition is_hex (c : N) : bool :=
  ((48 <=? c) && (c <=? 57) || (97 <=? c) && (c <=? 102))%N.

(** A printable ASCII character. *)
Definition printable (c : N) : bool := ((32 <=? c) && (c <=? 126))%N.

(** Every float of the value has a printable ASCII repr (as every repr
    Python prints has). *)
Fixpoint ascii_floats (v : value) : bool :=
  match v with
  | VFloat r => forallb printable r
  | VList l => forallb ascii_floats l
  | VDict d => forallb (fun kv => ascii_floats (snd kv)) d
  | _ => true
  end.

(** The items the consumer pulled from the queue. *)
Fixpoint pulled (events : list event) : list item :=
  match events with
  | [] => []
  | Get x :: rest => x :: pulled rest
  | Timeout :: rest => pulled rest
  end.

(** The record goes into a batch; the record is skipped. *)
Definition batched (existing : dict) (record : value) : bool :=
  match skip_unchanged existing record with Ok false => true | _ => false end.

Definition skipped (existing : dict) (record : value) : bool :=
  match skip_unchanged existing record with Ok true => true | _ => false end.

(** No dispatched batch is empty or longer than [size], and the batch being
    filled is shorter than [size]. *)
Definition bounded (size : Z) (c : consumer) : Prop :=
  Forall (fun b => b <> [] /\ Z.of_nat (length b) <= size) (dispatched c) /\
  Z.of_nat (length (batch c)) < size.

(** A record the consumer finds unchanged and can skip: the cache maps the
    id of its [data] to the digest of that [data], and the item itself has
    an [id]. *)
Definition skippable (existing : dict) (record : value) : Prop :=
  exists data k h x,
    getitem record (lit "data") = Ok data /\
    getitem data (lit "id") = Ok (VStr k) /\
    dict_get k existing = Some (VStr h) /\
    hash_record data = Ok h /\
    getitem record (lit "id") = Ok x.

(** A queue item [{"data": {"id": "...", ...}, ...}]. *)
Definition has_data_id (record : value) : Prop :=
  exists d data id,
    record = VDict d /\
    dict_get (lit "data") d = Some (VDict data) /\
    dict_get (lit "id") data = Some (VStr id).

(** Two sub-results with an error code: an invalid record, and a conflict
    that does not name the existing record. *)
Definition conflict_without_details : list value :=
  [VDict [(lit "code", VInt 400)]; VDict [(lit "code", VInt 412)]].

(** * Properties *)

(** ** hashlib.md5 and json.dumps on known inputs *)

Example md5_empty :
  MD5.hexdigest [] = lit "d41d8cd98f00b204e9800998ecf8427e".
Proof. vm_compute. reflexivity. Qed.

Example md5_abc :
  MD5.hexdigest [97; 98; 99] = lit "900150983cd24fb0d6963f7d28e17f72".
Proof. vm_compute. reflexivity. Qed.

Example json_dumps_sorts_keys :
  json_dumps true
    (VDict [(lit "b", VList [VInt 1; VNone; VBool true]);
            (lit "a", VDict [(lit "z", VStr [233%N]); (lit "y", VInt (-2))])])
  = dq (lit "{'a': {'y': -2, 'z': '\u00e9'}, 'b': [1, null, true]}").
Proof. vm_compute. reflexivity. Qed.

(** Key order does not count, also in a nested dict. *)
Example hash_record_nested_order :
  hash_record
    (VDict [(lit "id", VStr (lit "a"));
            (lit "build", VDict [(lit "id", VInt 1); (lit "number", VInt 2)])])
  = hash_record
      (VDict [(lit "build", VDict [(lit "number", VInt 2); (lit "id", VInt 1)]);
              (lit "last_modified", VInt 9);
              (lit "id", VStr (lit "a"))]).
Proof. vm_compute. reflexivity. Qed.

(** The digest of [{"id": "a", "title": "x"}], as Python computes it. *)
Example hash_record_known :
  hash_record (VDict [(lit "title", VStr (lit "x"));
                      (lit "last_modified", VInt 5);
                      (lit "id", VStr (lit "a"))])
  = Ok (lit "2bb636ed308bdf7f17a9dce93673b128").
Proof. vm_compute. reflexivity. Qed.

(** ** Dictionaries *)

Lemma str_eqb_eq (a b : str) : str_eqb a b = true <-> a = b.
Proof. unfold str_eqb. rewrite bool_decide_eq_true. reflexivity. Qed.

Lemma str_eqb_refl (a : str) : str_eqb a a = true.
Proof. apply str_eqb_eq. reflexivity. Qed.

Lemma dict_pop_idemp (k : str) (d : dict) :
  dict_pop k (dict_pop k d) = dict_pop k d.
Proof.
  unfold dict_pop. induction d as [|[k' v] d IH]; simpl; [reflexivity|].
  destruct (negb (str_eqb k k')) eqn:E; simpl; [rewrite E, IH|]; auto.
Qed.

Lemma dict_pop_comm (k1 k2 : str) (d : dict) :
  dict_pop k1 (dict_pop k2 d) = dict_pop k2 (dict_pop k1 d).
Proof.
  unfold dict_pop. induction d as [|[k' v] d IH]; simpl; [reflexivity|].
  destruct (negb (str_eqb k2 k')) eqn:E2, (negb (str_eqb k1 k')) eqn:E1;
    simpl; rewrite ?E1, ?E2, IH; reflexivity.
Qed.

Lemma dict_pop_set (k : str) (v : value) (d : dict) :
  dict_pop k (dict_set k v d) = dict_pop k d.
Proof.
  unfold dict_pop. induction d as [|[k' v'] d IH]; simpl.
  - rewrite str_eqb_refl. reflexivity.
  - destruct (str_eqb k k') eqn:E; simpl.
    + rewrite str_eqb_refl. reflexivity.
    + rewrite E. simpl. rewrite IH. reflexivity.
Qed.

Lemma dict_get_pop_same (k : str) (d : dict) : dict_get k (dict_pop k d) = None.
Proof.
  unfold dict_pop. induction d as [|[k' v] d IH]; simpl; [reflexivity|].
  destruct (str_eqb k k') eqn:E; simpl; [|rewrite E]; exact IH.
Qed.

Lemma dict_get_pop_other (k k' : str) (d : dict) :
  k <> k' -> dict_get k (dict_pop k' d) = dict_get k d.
Proof.
  intros Hne. unfold dict_pop. induction d as [|[k0 v] d IH]; simpl; [reflexivity|].
  destruct (str_eqb k' k0) eqn:E'; simpl.
  - apply str_eqb_eq in E'. subst k0.
    destruct (str_eqb k k') eqn:E; [apply str_eqb_eq in E; contradiction|].
    exact IH.
  - destruct (str_eqb k k0); [reflexivity|exact IH].
Qed.

Lemma stripVolatile_idemp (record : dict) :
  stripVolatile (stripVolatile record) = stripVolatile record.
Proof.
  unfold stripVolatile.
  rewrite (dict_pop_comm (lit "last_modified") (lit "schema")
             (dict_pop (lit "last_modified") record)).
  rewrite !dict_pop_idemp. reflexivity.
Qed.

Lemma stripVolatile_set_last_modified (v : value) (record : dict) :
  stripVolatile (dict_set (lit "last_modified") v record) = stripVolatile record.
Proof. unfold stripVolatile. rewrite dict_pop_set. reflexivity. Qed.

Lemma stripVolatile_set_schema (v : value) (record : dict) :
  stripVolatile (dict_set (lit "schema") v record) = stripVolatile record.
Proof.
  unfold stripVolatile.
  rewrite !(dict_pop_comm (lit "schema") (lit "last_modified")).
  rewrite dict_pop_set. reflexivity.
Qed.

Lemma stripVolatile_pop_last_modified (record : dict) :
  stripVolatile (dict_pop (lit "last_modified") record) = stripVolatile record.
Proof. unfold stripVolatile. rewrite dict_pop_idemp. reflexivity. Qed.

Lemma stripVolatile_pop_schema (record : dict) :
  stripVolatile (dict_pop (lit "schema") record) = stripVolatile record.
Proof.
  unfold stripVolatile.
  rewrite (dict_pop_comm (lit "last_modified") (lit "schema")).
  rewrite dict_pop_idemp. reflexivity.
Qed.

Lemma stripVolatile_has_no_volatile (record : dict) :
  dict_get (lit "last_modified") (stripVolatile record) = None /\
  dict_get (lit "schema") (stripVolatile record) = None.
Proof.
  unfold stripVolatile. split.
  - rewrite dict_get_pop_other by (vm_compute; discriminate).
    apply dict_get_pop_same.
  - apply dict_get_pop_same.
Qed.

Lemma stripVolatile_keeps (k : str) (record : dict) :
  k <> lit "last_modified" -> k <> lit "schema" ->
  dict_get k (stripVolatile record) = dict_get k record.
Proof.
  intros H1 H2. unfold stripVolatile.
  rewrite !dict_get_pop_other by assumption. reflexivity.
Qed.

(** ** The order on keys and the sorted items *)

Lemma str_leb_total (a b : str) : str_leb a b = true \/ str_leb b a = true.
Proof.
  revert b. induction a as [|x a IH]; intros [|y b]; simpl; auto.
  destruct (N.ltb_spec x y), (N.ltb_spec y x), (N.eqb_spec x y), (N.eqb_spec y x);
    auto; try lia.
Qed.

Lemma str_leb_antisym (a b : str) :
  str_leb a b = true -> str_leb b a = true -> a = b.
Proof.
  revert b. induction a as [|x a IH]; intros [|y b]; simpl; try discriminate; auto.
  destruct (N.ltb_spec x y), (N.ltb_spec y x), (N.eqb_spec x y), (N.eqb_spec y x);
    try discriminate; try lia.
  intros H1 H2. subst. f_equal. auto.
Qed.

Lemma str_leb_trans (a b c : str) :
  str_leb a b = true -> str_leb b c = true -> str_leb a c = true.
Proof.
  revert b c. induction a as [|x a IH]; intros [|y b] [|z c]; simpl;
    try discriminate; auto.
  destruct (N.ltb_spec x y), (N.ltb_spec y z), (N.ltb_spec x z),
    (N.eqb_spec x y), (N.eqb_spec y z), (N.eqb_spec x z);
    try discriminate; try lia; eauto.
Qed.

#[local] Instance key_le_trans {A} : Transitive (@key_le A).
Proof.
  intros p q r. unfold key_le. rewrite !Is_true_true. apply str_leb_trans.
Qed.

#[local] Instance key_le_total {A} : Total (@key_le A).
Proof.
  intros p q. unfold key_le. rewrite !Is_true_true. apply str_leb_total.
Qed.

Lemma NoDup_keys_functional {A} (l : list (str * A)) k v1 v2 :
  NoDup (map fst l) -> In (k, v1) l -> In (k, v2) l -> v1 = v2.
Proof.
  induction l as [|[k' v'] l IH]; simpl; [tauto|].
  intros Hnd H1 H2. apply NoDup_cons in Hnd as [Hk Hnd].
  assert (Hin : forall v, In (k', v) l -> False).
  { intros v Hv. apply Hk. apply list_elem_of_In.
    change k' with (fst (k', v)). apply in_map. exact Hv. }
  destruct H1 as [H1|H1], H2 as [H2|H2]; simplify_eq; eauto;
    exfalso; eauto.
Qed.

(** Two dicts with the same items, whatever their insertion order, have the
    same sorted items. *)
Lemma merge_sort_items_perm {A} (l1 l2 : list (str * A)) :
  NoDup (map fst l1) -> l1 ≡ₚ l2 ->
  merge_sort key_le l1 = merge_sort key_le l2.
Proof.
  intros Hnd Hp.
  apply (StronglySorted_unique_strong key_le).
  - intros [k1 v1] [k2 v2] H1 H2 Hle1 Hle2.
    unfold key_le in *. simpl in *. apply Is_true_true in Hle1, Hle2.
    assert (k1 = k2) by (apply str_leb_antisym; assumption). subst k2.
    f_equal. apply (NoDup_keys_functional l1 k1); [assumption| |].
    + apply list_elem_of_In. rewrite <- (merge_sort_Permutation key_le l1).
      exact H1.
    + apply list_elem_of_In. rewrite Hp, <- (merge_sort_Permutation key_le l2).
      exact H2.
  - apply StronglySorted_merge_sort; apply _.
  - apply StronglySorted_merge_sort; apply _.
  - rewrite !merge_sort_Permutation. exact Hp.
Qed.

Lemma map_fst_encoded (f : value -> str) (d : dict) :
  map fst (map (fun kv => (fst kv, f (snd kv))) d) = map fst d.
Proof. rewrite map_map. reflexivity. Qed.

Lemma json_dumps_dict (sort_keys : bool) (d : dict) :
  json_dumps sort_keys (VDict d) =
  lit "{" ++
  join (lit ", ")
    (map (fun kv => encode_basestring_ascii (fst kv) ++ lit ": " ++ snd kv)
       (sort_items sort_keys
          (map (fun kv => (fst kv, json_dumps sort_keys (snd kv))) d))) ++
  lit "}".
Proof. reflexivity. Qed.

Lemma json_dumps_dict_perm (d1 d2 : dict) :
  NoDup (map fst d1) -> d1 ≡ₚ d2 ->
  json_dumps true (VDict d1) = json_dumps true (VDict d2).
Proof.
  intros Hnd Hp. rewrite !json_dumps_dict. do 4 f_equal.
  unfold sort_items. apply merge_sort_items_perm.
  - rewrite map_fst_encoded. exact Hnd.
  - apply Permutation_map. exact Hp.
Qed.

(** The sorted dump does not see the insertion order of keys, at any
    depth. *)
Lemma json_dumps_same_json (v1 v2 : value) :
  same_json v1 v2 -> json_dumps true v1 = json_dumps true v2.
Proof.
  revert v1 v2. fix json_dumps_same_json 3. intros v1 v2 H.
  destruct H as [v|l1 l2 Hl|d1 d d2 Hnd Hp Hf].
  - reflexivity.
  - cbn [json_dumps]. do 3 f_equal.
    revert l1 l2 Hl.
    refine (fix go l1 l2 (Hl : Forall2 same_json l1 l2) {struct Hl}
              : map (json_dumps true) l1 = map (json_dumps true) l2 := _).
    destruct Hl as [|x y l l' Hxy Hl']; [reflexivity|].
    cbn [map]. f_equal; [exact (json_dumps_same_json x y Hxy)|exact (go l l' Hl')].
  - rewrite (json_dumps_dict_perm d1 d Hnd Hp). rewrite !json_dumps_dict.
    do 5 f_equal.
    clear Hnd Hp. revert d d2 Hf.
    refine (fix go d d2
              (Hf : Forall2 (fun p q => fst p = fst q /\ same_json (snd p) (snd q)) d d2)
              {struct Hf}
              : map (fun kv => (fst kv, json_dumps true (snd kv))) d =
                map (fun kv => (fst kv, json_dumps true (snd kv))) d2 := _).
    destruct Hf as [|x y l l' [Hk Hv] Hl']; [reflexivity|].
    cbn [map]. f_equal; [|exact (go l l' Hl')].
    f_equal; [exact Hk|exact (json_dumps_same_json _ _ Hv)].
Qed.

Lemma NoDup_keys_pop (k : str) (d : dict) :
  NoDup (map fst d) -> NoDup (map fst (dict_pop k d)).
Proof.
  unfold dict_pop. induction d as [|[k' v] d IH]; simpl; [auto|].
  intros Hnd. apply NoDup_cons in Hnd as [Hk Hnd].
  destruct (negb (str_eqb k k')); simpl; [|auto].
  apply NoDup_cons. split; [|auto].
  intros Hin. apply Hk. apply list_elem_of_In in Hin. apply list_elem_of_In.
  apply in_map_iff in Hin as [[k0 v0] [Hf Hin]]. simpl in Hf. subst k0.
  apply filter_In in Hin as [Hin _].
  change k' with (fst (k', v0)). apply in_map. exact Hin.
Qed.

Lemma NoDup_keys_stripVolatile (record : dict) :
  NoDup (map fst record) -> NoDup (map fst (stripVolatile record)).
Proof. intros H. unfold stripVolatile. do 2 apply NoDup_keys_pop. exact H. Qed.

(** ** hash_record *)

Lemma bind_ok_fst {A B} (m : outcome A) (b : B) :
  (r <- (a <- m ;; Ok (a, b)) ;; Ok (fst r)) = m.
Proof. destruct m; reflexivity. Qed.

(** On a dict, both variants give the MD5 of the sorted dump of the record
    without its volatile fields, and the mutating one leaves that record. *)
Lemma hash_record_mutate_dict (record : dict) :
  hash_record_mutate (VDict record) =
  (h <- md5_hexdigest (json_dumps true (VDict (stripVolatile record))) ;;
   Ok (h, VDict (stripVolatile record))).
Proof. reflexivity. Qed.

Lemma hash_record_dict (record : dict) :
  hash_record (VDict record) =
  md5_hexdigest (json_dumps true (VDict (stripVolatile record))).
Proof.
  unfold hash_record, deepcopy. rewrite hash_record_mutate_dict.
  apply bind_ok_fst.
Qed.

Lemma hash_record_not_dict (record : value) :
  (forall d, record <> VDict d) ->
  hash_record record = Raise TypeError \/
  hash_record record = Raise AttributeError.
Proof.
  intros H. destruct record; auto. exfalso. eapply H. reflexivity.
Qed.

Lemma hash_record_strip_eq (r1 r2 : dict) :
  stripVolatile r1 = stripVolatile r2 ->
  hash_record (VDict r1) = hash_record (VDict r2).
Proof. intros H. rewrite !hash_record_dict, H. reflexivity. Qed.

Lemma hash_record_same_json (r1 r2 : dict) :
  same_json (VDict (stripVolatile r1)) (VDict (stripVolatile r2)) ->
  hash_record (VDict r1) = hash_record (VDict r2).
Proof.
  intros H. rewrite !hash_record_dict.
  rewrite (json_dumps_same_json _ _ H). reflexivity.
Qed.

Lemma hash_record_perm (r1 r2 : dict) :
  NoDup (map fst r1) -> stripVolatile r1 ≡ₚ stripVolatile r2 ->
  hash_record (VDict r1) = hash_record (VDict r2).
Proof.
  intros Hnd Hp. rewrite !hash_record_dict.
  rewrite (json_dumps_dict_perm (stripVolatile r1) (stripVolatile r2));
    auto using NoDup_keys_stripVolatile.
Qed.

Lemma dict_get_In (d : dict) (k : str) (v : value) :
  NoDup (map fst d) -> In (k, v) d <-> dict_get k d = Some v.
Proof.
  induction d as [|[k' v'] d IH]; simpl; intros Hnd.
  - split; [tauto|discriminate].
  - apply NoDup_cons in Hnd as [Hk Hnd]. specialize (IH Hnd).
    destruct (str_eqb k k') eqn:E.
    + apply str_eqb_eq in E. subst k'. split.
      * intros [[= ->]|Hin]; [reflexivity|].
        exfalso. apply Hk, list_elem_of_In.
        change k with (fst (k, v)). apply in_map. exact Hin.
      * intros [= ->]. left. reflexivity.
    + rewrite <- IH. split; [|tauto].
      intros [[= -> ->]|Hin]; [|exact Hin].
      rewrite str_eqb_refl in E. discriminate.
Qed.

Lemma NoDup_keys_items (d : dict) : NoDup (map fst d) -> NoDup d.
Proof.
  induction d as [|[k v] d IH]; simpl; intros Hnd; [constructor|].
  apply NoDup_cons in Hnd as [Hk Hnd]. apply NoDup_cons. split; [|auto].
  intros Hin. apply Hk, list_elem_of_In. apply list_elem_of_In in Hin.
  change k with (fst (k, v)). apply in_map. exact Hin.
Qed.

(** Two dicts with the same lookups hold the same items. *)
Lemma dict_ext_perm (d1 d2 : dict) :
  NoDup (map fst d1) -> NoDup (map fst d2) ->
  (forall k, dict_get k d1 = dict_get k d2) -> d1 ≡ₚ d2.
Proof.
  intros H1 H2 Hg. apply NoDup_Permutation; auto using NoDup_keys_items.
  intros [k v]. rewrite !list_elem_of_In, !dict_get_In, Hg by assumption.
  reflexivity.
Qed.

(** The digest is a function of the fields other than the two volatile
    ones: records that agree on them hash alike, whatever the order in which
    their keys were inserted. *)
Lemma hash_record_ext (r1 r2 : dict) :
  NoDup (map fst r1) -> NoDup (map fst r2) ->
  (forall k, k <> lit "last_modified" -> k <> lit "schema" ->
             dict_get k r1 = dict_get k r2) ->
  hash_record (VDict r1) = hash_record (VDict r2).
Proof.
  intros H1 H2 Hg. apply hash_record_perm; [assumption|].
  apply dict_ext_perm; auto using NoDup_keys_stripVolatile.
  intros k.
  destruct (decide (k = lit "last_modified")) as [->|Hlm].
  { destruct (stripVolatile_has_no_volatile r1) as [-> _].
    destruct (stripVolatile_has_no_volatile r2) as [-> _]. reflexivity. }
  destruct (decide (k = lit "schema")) as [->|Hs].
  { destruct (stripVolatile_has_no_volatile r1) as [_ ->].
    destruct (stripVolatile_has_no_volatile r2) as [_ ->]. reflexivity. }
  rewrite !stripVolatile_keeps by assumption. auto.
Qed.

(** The digest is 32 characters long. *)
Lemma md5_hexdigest_length (s h : str) :
  md5_hexdigest s = Ok h -> length h = 32%nat.
Proof.
  unfold md5_hexdigest. destruct (encode_utf8 s) as [bs|]; [|discriminate].
  intros [= <-]. reflexivity.
Qed.

Lemma hash_record_length (record : value) (h : str) :
  hash_record record = Ok h -> length h = 32%nat.
Proof.
  destruct record; try discriminate. rewrite hash_record_dict.
  apply md5_hexdigest_length.
Qed.

(** On the store: the mutating variant rewrites the object it is given. *)
Lemma obj_hash_record_mutate_dict (record : Obj.ref) (st : Obj.store) (d : dict) :
  st !! record = Some (VDict d) ->
  Obj.hash_record_mutate record st =
  (hash_record (VDict d), <[record := VDict (stripVolatile d)]> st).
Proof.
  intros Hr. assert (Hlt : (record < length st)%nat) by (eapply lookup_lt_Some; eauto).
  unfold Obj.hash_record_mutate, Obj.bindM, Obj.pop_at, Obj.dumps_md5, Obj.deref.
  unfold Obj.store, Obj.ref in *. rewrite Hr. simpl.
  rewrite list_lookup_insert_eq by assumption. simpl.
  rewrite list_insert_insert_eq.
  rewrite list_lookup_insert_eq by assumption. simpl.
  rewrite hash_record_dict. reflexivity.
Qed.

(** On the store: the other variant works on a copy it allocates, returns
    the same digest, and leaves every object that was there as it was. *)
Lemma obj_hash_record_copies (record : Obj.ref) (st : Obj.store) (v : value) :
  st !! record = Some v ->
  exists copy, Obj.hash_record record st = (hash_record v, st ++ [copy]).
Proof.
  intros Hr. unfold Obj.store, Obj.ref in *.
  assert (Hnew : forall x, (st ++ [x]) !! length st = Some x).
  { intros x. rewrite lookup_app_r by lia. rewrite Nat.sub_diag. reflexivity. }
  assert (Hins : forall x y, <[length st := y]> (st ++ [x]) = st ++ [y]).
  { intros x y. rewrite insert_app_r_alt by lia. rewrite Nat.sub_diag. reflexivity. }
  unfold Obj.hash_record, Obj.bindM, Obj.deepcopy, Obj.deref.
  unfold Obj.store, Obj.ref in *. rewrite Hr. simpl.
  destruct v;
    try (eexists; unfold Obj.hash_record_mutate, Obj.bindM, Obj.pop_at, Obj.deref;
         rewrite Hnew; simpl; reflexivity).
  eexists. rewrite (obj_hash_record_mutate_dict _ _ d) by apply Hnew.
  rewrite Hins. reflexivity.
Qed.

Lemma obj_hash_record_preserves (record : Obj.ref) (st : Obj.store) (v : value) :
  st !! record = Some v ->
  fst (Obj.hash_record record st) = hash_record v /\
  forall r x, st !! r = Some x -> snd (Obj.hash_record record st) !! r = Some x.
Proof.
  intros Hr. destruct (obj_hash_record_copies record st v Hr) as [copy ->].
  simpl. split; [reflexivity|]. unfold Obj.store, Obj.ref in *.
  intros r x Hx. rewrite lookup_app_l; [exact Hx|]. eapply lookup_lt_Some; eauto.
Qed.

(** C3. For every record, the digest of the record is the digest of the
    record without [last_modified] and [schema]: setting or removing either
    field does not change it; two records that agree on every other field
    have the same digest, whatever the order of their keys, also inside the
    dicts they hold; and
    [hash_record], which copies first, returns that digest and leaves the
    object it was given (and every other object of the store) as it was. *)
Theorem hash_record_ignores_volatile (record : dict) :
  hash_record (VDict record) = hash_record (VDict (stripVolatile record)) /\
  (forall v, hash_record (VDict (dict_set (lit "last_modified") v record))
             = hash_record (VDict record)) /\
  (forall v, hash_record (VDict (dict_set (lit "schema") v record))
             = hash_record (VDict record)) /\
  hash_record (VDict (dict_pop (lit "last_modified") record))
    = hash_record (VDict record) /\
  hash_record (VDict (dict_pop (lit "schema") record))
    = hash_record (VDict record) /\
  (forall record' : dict,
      NoDup (map fst record) -> NoDup (map fst record') ->
      (forall k, k <> lit "last_modified" -> k <> lit "schema" ->
                 dict_get k record = dict_get k record') ->
      hash_record (VDict record) = hash_record (VDict record')) /\
  (forall record' : dict,
      same_json (VDict (stripVolatile record)) (VDict (stripVolatile record')) ->
      hash_record (VDict record) = hash_record (VDict record')) /\
  (forall (st : Obj.store) (r : Obj.ref),
      st !! r = Some (VDict record) ->
      fst (Obj.hash_record r st) = hash_record (VDict record) /\
      forall r' x, st !! r' = Some x ->
                   snd (Obj.hash_record r st) !! r' = Some x).
Proof.
  repeat apply conj.
  - apply hash_record_strip_eq. symmetry. apply stripVolatile_idemp.
  - intros v. apply hash_record_strip_eq, stripVolatile_set_last_modified.
  - intros v. apply hash_record_strip_eq, stripVolatile_set_schema.
  - apply hash_record_strip_eq, stripVolatile_pop_last_modified.
  - apply hash_record_strip_eq, stripVolatile_pop_schema.
  - intros record' Hnd Hnd' Hg. apply hash_record_ext; assumption.
  - intros record'. apply hash_record_same_json.
  - intros st r Hr. apply (obj_hash_record_preserves r st _ Hr).
Qed.

(** ** produce *)

Lemma has_payload_dict (record : dict) :
  has_payload (VDict record) =
  Ok (dict_mem (lit "data") record || dict_mem (lit "permission") record).
Proof.
  unfold has_payload. simpl.
  destruct (dict_mem (lit "data") record); reflexivity.
Qed.

Lemma has_payload_carries (record : dict) :
  carries_payload record -> has_payload (VDict record) = Ok true.
Proof.
  intros [H|H]; rewrite has_payload_dict, H; [reflexivity|].
  apply f_equal, orb_true_r.
Qed.

Lemma has_payload_missing (record : dict) :
  ~ carries_payload record -> has_payload (VDict record) = Ok false.
Proof.
  intros H. rewrite has_payload_dict. unfold carries_payload in H.
  destruct (dict_mem (lit "data") record), (dict_mem (lit "permission") record);
    try reflexivity; exfalso; apply H; auto.
Qed.

(** On any values: the items [has_payload] accepts are queued in order, and
    the first one it does not accept ends the coroutine. *)
Lemma produce_accepted (records : list value) (queue : list item) :
  Forall (fun record => has_payload record = Ok true) records ->
  produce records queue = (Ok tt, queue ++ map Record_ records ++ [Done]).
Proof.
  intros H. revert queue. induction H as [|record records Hr _ IH]; intros queue.
  - reflexivity.
  - simpl. rewrite Hr, IH, <- app_assoc. reflexivity.
Qed.

Lemma produce_stops (pre post : list value) (bad : value) (queue : list item) :
  Forall (fun record => has_payload record = Ok true) pre ->
  has_payload bad <> Ok true ->
  produce (pre ++ bad :: post) queue =
  (match has_payload bad with
   | Raise e => Raise e
   | Ok _ => Raise (ValueError (lit "Invalid record (missing 'data' attribute)"))
   end,
   queue ++ map Record_ pre).
Proof.
  intros H Hbad. revert queue. induction H as [|record pre Hr _ IH]; intros queue.
  - simpl. rewrite app_nil_r.
    destruct (has_payload bad) as [[|]|e]; [contradiction|reflexivity..].
  - simpl. rewrite Hr, IH, <- app_assoc. reflexivity.
Qed.

Lemma produce_all_valid (records : list dict) (queue : list item) :
  Forall carries_payload records ->
  produce (map VDict records) queue =
  (Ok tt, queue ++ map Record_ (map VDict records) ++ [Done]).
Proof.
  intros H. apply produce_accepted. apply Forall_map.
  eapply Forall_impl; [exact H|]. intros r. apply has_payload_carries.
Qed.

Lemma produce_aborts (pre post : list dict) (bad : dict) (queue : list item) :
  Forall carries_payload pre -> ~ carries_payload bad ->
  produce (map VDict (pre ++ bad :: post)) queue =
  (Raise (ValueError (lit "Invalid record (missing 'data' attribute)")),
   queue ++ map Record_ (map VDict pre)).
Proof.
  intros H Hbad. rewrite map_app. simpl.
  rewrite produce_stops.
  - rewrite (has_payload_missing _ Hbad). reflexivity.
  - apply Forall_map. eapply Forall_impl; [exact H|].
    intros r. apply has_payload_carries.
  - rewrite (has_payload_missing _ Hbad). discriminate.
Qed.

(** Items that are not JSON objects go by Python's [in]: a number is not a
    container, a string is searched for the substring. *)
Example produce_number :
  produce [VInt 5] [] = (Raise TypeError, []).
Proof. reflexivity. Qed.

Example produce_string :
  produce [VStr (lit "metadata")] [] =
  (Ok tt, [Record_ (VStr (lit "metadata")); Done]).
Proof. reflexivity. Qed.

(** C4. Items that have a [data] or a [permission] key are put on the queue
    in the order they arrive, and the [done] sentinel follows once, after the
    last of them.  At the first item that has neither key, production fails
    with the [ValueError] of the input validation: the items before it are on
    the queue, in order, and nothing after them, neither the items that
    follow nor the sentinel. *)
Theorem produce_enqueues_in_order (records : list dict) (queue : list item) :
  (Forall carries_payload records ->
   produce (map VDict records) queue =
   (Ok tt, queue ++ map Record_ (map VDict records) ++ [Done])) /\
  (forall pre bad post,
      records = pre ++ bad :: post ->
      Forall carries_payload pre -> ~ carries_payload bad ->
      produce (map VDict records) queue =
      (Raise (ValueError (lit "Invalid record (missing 'data' attribute)")),
       queue ++ map Record_ (map VDict pre))).
Proof.
  split.
  - apply produce_all_valid.
  - intros pre bad post -> Hpre Hbad. apply produce_aborts; assumption.
Qed.

(** ** publish_records *)

Lemma format_conflict_ok (py_str : value -> str) (result existing id : value) :
  conflicting result = Some (existing, id) ->
  format_conflict py_str result =
  Ok (lit "Record '" ++ py_str id ++ lit "' already exists: " ++ py_str existing).
Proof.
  unfold conflicting, format_conflict.
  destruct result as [| | | | | |d]; try discriminate. cbn [getitem bind].
  destruct (dict_get (lit "details") d) as [[| | | | | |details]|];
    try discriminate. cbn [getitem bind].
  destruct (dict_get (lit "existing") details) as [[| | | | | |ex]|];
    try discriminate. cbn [getitem bind].
  destruct (dict_get (lit "id") ex) as [i|]; try discriminate.
  intros [= <- <-]. reflexivity.
Qed.

Lemma error_code_dict (d : dict) :
  error_code (VDict d) =
  let code := default VNone (dict_get (lit "code") d) in
  if is_none code then None else Some code.
Proof.
  unfold error_code.
  destruct (dict_get (lit "code") d) as [[]|]; reflexivity.
Qed.

(** One round of the loop on a well-formed sub-result. *)
Lemma collect_errors_step (py_str : value -> str) (result : value)
    (rest : list value) (error_msgs : list str) :
  well_formed result ->
  collect_errors py_str (result :: rest) error_msgs =
  collect_errors py_str rest
    (error_msgs ++ if erroneous result then [describe py_str result] else []).
Proof.
  intros [[d ->] Hwf]. cbn [collect_errors]. unfold get_code. cbn [bind].
  unfold erroneous, describe.
  pose proof (error_code_dict d) as Hec. cbn zeta in Hec.
  destruct (is_none (default VNone (dict_get (lit "code") d))) eqn:En.
  - rewrite Hec.
    destruct (default VNone (dict_get (lit "code") d)); try discriminate.
    cbn [eq_int is_none negb]. rewrite app_nil_r. reflexivity.
  - rewrite Hec. specialize (Hwf _ Hec).
    destruct (eq_int (default VNone (dict_get (lit "code") d)) 412) eqn:E412.
    + destruct (conflicting (VDict d)) as [[existing id]|] eqn:Ec;
        [|exfalso; apply Hwf; reflexivity].
      rewrite (format_conflict_ok py_str _ _ _ Ec). reflexivity.
    + destruct (eq_int (default VNone (dict_get (lit "code") d)) 400);
        [reflexivity|]. cbn [negb]. reflexivity.
Qed.

Lemma collect_errors_spec (py_str : value -> str) (results : list value)
    (error_msgs : list str) :
  Forall well_formed results ->
  collect_errors py_str results error_msgs =
  Ok (error_msgs ++ map (describe py_str) (List.filter erroneous results)).
Proof.
  intros H. revert error_msgs.
  induction H as [|result results Hwf _ IH]; intros error_msgs.
  - simpl. rewrite app_nil_r. reflexivity.
  - rewrite (collect_errors_step _ _ _ _ Hwf), IH. cbn [List.filter].
    destruct (erroneous result); cbn [map]; rewrite <- app_assoc; reflexivity.
Qed.

(** Without the assumption on 412 sub-results the function can end in a
    [KeyError] instead of the aggregated failure. *)
Example publish_records_conflict_without_details (py_str : value -> str) :
  publish_records py_str (fun _ => [VDict [(lit "code", VInt 412)]]) [] =
  Raise (KeyError (lit "details")).
Proof. reflexivity. Qed.

(** C2. For the sub-results of one batch call (JSON objects, those with
    code 412 naming the existing record): [publish_records] returns the
    sub-results when none carries an error code, and otherwise raises one
    [ValueError] whose message has one line for every sub-result that carries
    an error code, in order, and none for the others: the line names the
    existing record and its id for a 412, reads [Invalid record: ...] for a
    400 and [Error: ...] for any other code.  So it raises that failure
    exactly when some sub-result carries an error code. *)
Theorem publish_records_aggregates (py_str : value -> str) (c : client)
    (records : list value) (ops : list operation) :
  batch_operations records = Ok ops ->
  Forall well_formed (c ops) ->
  publish_records py_str c records =
    match List.filter erroneous (c ops) with
    | [] => Ok (c ops)
    | errors =>
        Raise (ValueError (join newline (map (describe py_str) errors)))
    end /\
  ((exists msg, publish_records py_str c records = Raise (ValueError msg)) <->
   (exists result, In result (c ops) /\ erroneous result = true)).
Proof.
  intros Hops Hwf.
  assert (Heq : publish_records py_str c records =
    match List.filter erroneous (c ops) with
    | [] => Ok (c ops)
    | errors =>
        Raise (ValueError (join newline (map (describe py_str) errors)))
    end).
  { unfold publish_records. rewrite Hops. cbn [bind].
    rewrite (collect_errors_spec _ _ _ Hwf). cbn [bind app].
    destruct (List.filter erroneous (c ops)); reflexivity. }
  split; [exact Heq|].
  rewrite Heq. split.
  - intros [msg Hmsg].
    destruct (List.filter erroneous (c ops)) as [|r l] eqn:Ef; [discriminate|].
    assert (Hin : In r (List.filter erroneous (c ops)))
      by (rewrite Ef; left; reflexivity).
    apply filter_In in Hin. exists r. exact Hin.
  - intros [r Hr]. apply filter_In in Hr.
    destruct (List.filter erroneous (c ops)) as [|r' l]; [destruct Hr|].
    eexists. reflexivity.
Qed.

(** C2, as first stated (for every list of sub-results), fails: both
    sub-results of this batch carry an error code, and [publish_records] ends
    in the [KeyError] of the conflict message instead of the aggregated
    failure, so the invalid record is not described either. *)
Lemma publish_records_conflict_not_aggregated :
  Forall (fun result => erroneous result = true) conflict_without_details /\
  (forall py_str : value -> str,
      publish_records py_str (fun _ => conflict_without_details) []
      = Raise (KeyError (lit "details"))) /\
  (forall (py_str : value -> str) (msg : str),
      publish_records py_str (fun _ => conflict_without_details) []
      <> Raise (ValueError msg)).
Proof.
  split; [repeat constructor|]. split.
  - intros py_str. reflexivity.
  - intros py_str msg. discriminate.
Qed.

(** A batch with one 412 and one success raises one failure that describes
    the conflict only. *)
Example publish_records_one_conflict (py_str : value -> str) (c : client)
    (records : list value) (ops : list operation) (existing : dict) :
  let conflict :=
    VDict [(lit "code", VInt 412);
           (lit "details",
            VDict [(lit "existing",
                    VDict ((lit "id", VStr (lit "abc")) :: existing))])] in
  let success := VDict [(lit "data", VDict [(lit "id", VStr (lit "def"))])] in
  batch_operations records = Ok ops ->
  c ops = [conflict; success] ->
  publish_records py_str c records =
  Raise (ValueError
           (lit "Record '" ++ py_str (VStr (lit "abc")) ++
            lit "' already exists: " ++
            py_str (VDict ((lit "id", VStr (lit "abc")) :: existing)))).
Proof.
  intros conflict success Hops Hc.
  unfold publish_records. rewrite Hops. cbn [bind]. rewrite Hc. reflexivity.
Qed.

(** ** fetch_existing and the shape of the hash cache *)

Lemma dict_get_set (k k' : str) (v : value) (d : dict) :
  dict_get k (dict_set k' v d) = if str_eqb k k' then Some v else dict_get k d.
Proof.
  induction d as [|[k0 v0] d IH]; simpl.
  - reflexivity.
  - destruct (str_eqb k' k0) eqn:E0; simpl.
    + apply str_eqb_eq in E0. subst k0.
      destruct (str_eqb k k'); reflexivity.
    + destruct (str_eqb k k0) eqn:E1.
      * apply str_eqb_eq in E1. subst k0.
        destruct (str_eqb k k') eqn:E2; [|reflexivity].
        apply str_eqb_eq in E2. subst k'. rewrite str_eqb_refl in E0.
        discriminate.
      * exact IH.
Qed.

Lemma store_record_cache_store (records records' : dict) (record : value) :
  cache_store records -> store_record records record = Ok records' ->
  cache_store records'.
Proof.
  intros Hs. unfold store_record.
  destruct (getitem record (lit "last_modified")) as [lm|]; [|discriminate].
  cbn [bind]. destruct (hash_record_mutate record) as [[h r]|]; [|discriminate].
  cbn [bind fst snd]. destruct (getitem r (lit "id")) as [id|]; [|discriminate].
  cbn [bind]. destruct id; try discriminate. intros [= <-].
  intros k v. rewrite dict_get_set. destruct (str_eqb k s).
  - intros [= <-]. exists lm, h. reflexivity.
  - apply Hs.
Qed.

Lemma store_records_cache_store (new_records : list value) (records records' : dict) :
  cache_store records -> store_records records new_records = Ok records' ->
  cache_store records'.
Proof.
  revert records. induction new_records as [|record rest IH]; intros records Hs.
  - intros [= <-]. exact Hs.
  - simpl. destruct (store_record records record) as [r1|] eqn:E; [|discriminate].
    cbn [bind]. apply IH. eapply store_record_cache_store; eauto.
Qed.

(** Every entry of the cache [fetch_existing] returns is a list
    [[last_modified, hash]], provided the entries read from the cache file
    (written by an earlier run) are. *)
Lemma fetch_existing_cache_store (batches : list (list value)) (records records' : dict) :
  cache_store records -> fetch_existing records batches = Ok records' ->
  cache_store records'.
Proof.
  revert records. induction batches as [|b rest IH]; intros records Hs.
  - intros [= <-]. exact Hs.
  - simpl. destruct (store_records records b) as [r1|] eqn:E; [|discriminate].
    cbn [bind]. apply IH. eapply store_records_cache_store; eauto.
Qed.

Lemma cache_store_empty : cache_store [].
Proof. intros k v. discriminate. Qed.

(** ** consume *)

(** Against the cache as it is loaded, no record is ever found unchanged:
    the entry is a list and the digest is a string. *)
Lemma record_unchanged_cache_store (existing : dict) (record : value) :
  cache_store existing -> record_unchanged existing record <> Ok true.
Proof.
  intros Hs. unfold record_unchanged.
  destruct (getitem record (lit "id")) as [id|]; [|discriminate]. cbn [bind].
  destruct (key_in id existing) as [[|]|] eqn:Ek; cbn [bind]; try discriminate.
  destruct (hash_record record) as [h|]; [|discriminate]. cbn [bind].
  destruct id; try discriminate. cbn [key_in get_or_none] in *.
  unfold dict_mem in Ek.
  destruct (dict_get s existing) as [v|] eqn:Eg; [|discriminate].
  destruct (Hs _ _ Eg) as (lm & h' & ->). cbn. discriminate.
Qed.

Lemma skip_unchanged_cache_store (existing : dict) (record : value) :
  cache_store existing -> skip_unchanged existing record <> Ok true.
Proof.
  intros Hs. unfold skip_unchanged.
  destruct (getitem record (lit "data")) as [data|]; [|discriminate]. cbn [bind].
  pose proof (record_unchanged_cache_store existing data Hs) as Hn.
  destruct (record_unchanged existing data) as [[|]|]; cbn [bind];
    [contradiction|discriminate..].
Qed.

Lemma dispatch_keeps_records (c : consumer) :
  concat (dispatched (dispatch c)) ++ batch (dispatch c) =
  concat (dispatched c) ++ batch c /\
  task_done (dispatch c) = task_done c.
Proof.
  unfold dispatch. destruct (batch c) as [|x b] eqn:E.
  - rewrite E. auto.
  - simpl. rewrite concat_app. simpl. rewrite !app_nil_r. auto.
Qed.

(** So, against the loaded cache, every record the consumer pulls goes into
    a batch, and the consumer itself marks only the sentinels done. *)
Lemma consume_events_batches_all (ideal_batch_size : Z) (existing : dict)
    (events : list event) (c c' : consumer) :
  cache_store existing ->
  consume_events ideal_batch_size existing events c = Waiting c' ->
  concat (dispatched c') ++ batch c' =
    concat (dispatched c) ++ batch c ++ records_of events /\
  task_done c' = (task_done c + sentinels_of events)%nat.
Proof.
  intros Hs. revert c. induction events as [|ev rest IH]; intros c.
  - intros [= <-]. simpl. rewrite app_nil_r. split; [reflexivity|lia].
  - destruct ev as [[record|]|]; cbn [consume_events records_of sentinels_of].
    + pose proof (skip_unchanged_cache_store existing record Hs) as Hn.
      destruct (skip_unchanged existing record) as [[|]|];
        [contradiction| |discriminate].
      intros H. apply IH in H as [H1 H2]. rewrite H1, H2, app_assoc.
      match goal with |- context [if ?b then _ else _] => destruct b end.
      * cbn [batch dispatched task_done]. rewrite <- !app_assoc. auto.
      * match goal with |- context [dispatch ?x] =>
          destruct (dispatch_keeps_records x) as [-> ->] end.
        cbn [batch dispatched task_done]. rewrite <- !app_assoc. auto.
    + intros H. apply IH in H as [H1 H2]. rewrite H1, H2, app_assoc.
      destruct (dispatch_keeps_records (mark_done c)) as [-> ->].
      cbn [mark_done batch dispatched task_done]. rewrite <- app_assoc.
      split; [reflexivity|lia].
    + intros H. apply IH in H as [H1 H2]. rewrite H1, H2, app_assoc.
      destruct (dispatch_keeps_records c) as [-> ->]. rewrite <- app_assoc. auto.
Qed.

(** With a cache that maps the id to the bare digest the record is found
    unchanged, and the skip then depends on the queued item having a
    top-level [id]: the debug message reads it. *)
Lemma skip_unchanged_bare_digest (existing : dict) (record data : value)
    (k h : str) :
  getitem record (lit "data") = Ok data ->
  getitem data (lit "id") = Ok (VStr k) ->
  dict_get k existing = Some (VStr h) ->
  hash_record data = Ok h ->
  skip_unchanged existing record =
  match getitem record (lit "id") with
  | Ok _ => Ok true
  | Raise e => Raise e
  end.
Proof.
  intros Hd Hi Hg Hh. unfold skip_unchanged, record_unchanged.
  rewrite Hd. cbn [bind]. rewrite Hi. cbn [bind key_in].
  unfold dict_mem. rewrite Hg. cbn [bind]. rewrite Hh.
  cbn [bind get_or_none]. rewrite Hg. cbn [default from_option id eq_str].
  rewrite str_eqb_refl. cbn [bind].
  destruct (getitem record (lit "id")); reflexivity.
Qed.

Example fetch_existing_a : fetch_existing [] [[remote_a]] = Ok store_a.
Proof. vm_compute. reflexivity. Qed.

Example hash_record_a : hash_record data_a = Ok hash_a.
Proof. vm_compute. reflexivity. Qed.

(** A cache holding the bare digest, and the item as the input has it: the
    consumer dies on the first record, before marking it done. *)
Example consume_bare_digest_key_error :
  consume 9999 25 [(lit "a", VStr hash_a)]
    [Get (Record_ entry_a); Get (Record_ entry_a); Get Done]
  = Failed (KeyError (lit "id")) (Consumer [] [] 0).
Proof. vm_compute. reflexivity. Qed.

(** The same cache and an item that also carries a top-level [id]: both
    records are skipped, nothing is dispatched. *)
Example consume_bare_digest_top_level_id :
  consume 9999 25 [(lit "a", VStr hash_a)]
    [Get (Record_ (VDict [(lit "id", VStr (lit "a")); (lit "data", data_a)]));
     Get (Record_ (VDict [(lit "id", VStr (lit "a")); (lit "data", data_a)]));
     Get Done]
  = Waiting (Consumer [] [] 3).
Proof. vm_compute. reflexivity. Qed.

(** C1, on the code.  The hash cache is the one [fetch_existing] loads: it
    holds the id of the two queued records with the digest [hash_record]
    gives for them.  The consumer does not skip them: it puts both in one
    batch, hands that batch to [publish_records], and marks only the sentinel
    done itself. *)
Theorem consume_publishes_unchanged_records :
  fetch_existing [] [[remote_a]] = Ok store_a /\
  dict_get (lit "a") store_a = Some (VList [VInt 5; VStr hash_a]) /\
  hash_record data_a = Ok hash_a /\
  consume 9999 25 store_a
    [Get (Record_ entry_a); Get (Record_ entry_a); Get Done]
  = Waiting (Consumer [] [[entry_a; entry_a]] 1).
Proof. vm_compute. repeat split; reflexivity. Qed.

(** ** The theorems at concrete inputs *)

(** Two records with the same fields in another order, one of them with a
    [schema] and the other with a [last_modified]; a third one whose [build]
    has its keys in another order; and the store with the first record as
    its only object. *)
Lemma hash_record_ignores_volatile_witness :
  let build := VDict [(lit "id", VInt 1); (lit "number", VInt 2)] in
  let build' := VDict [(lit "number", VInt 2); (lit "id", VInt 1)] in
  let r1 := [(lit "id", VStr (lit "a")); (lit "last_modified", VInt 5);
             (lit "build", build)] in
  let r2 := [(lit "build", build); (lit "schema", VInt 7);
             (lit "id", VStr (lit "a"))] in
  let r3 := [(lit "build", build'); (lit "id", VStr (lit "a"))] in
  hash_record (VDict r1) = hash_record (VDict r2) /\
  hash_record (VDict r1) = hash_record (VDict r3) /\
  fst (Obj.hash_record 0%nat [VDict r1]) = hash_record (VDict r1) /\
  snd (Obj.hash_record 0%nat [VDict r1]) !! 0%nat = Some (VDict r1).
Proof.
  intros build build' r1 r2 r3.
  destruct (hash_record_ignores_volatile r1)
    as (_ & _ & _ & _ & _ & Hext & Hsame & Hst).
  split; [|split].
  - apply Hext.
    + apply (bool_decide_unpack _). vm_compute. reflexivity.
    + apply (bool_decide_unpack _). vm_compute. reflexivity.
    + intros k Hlm Hs. subst r1 r2.
      destruct (str_eqb k (lit "id")) eqn:Eid.
      { apply str_eqb_eq in Eid. subst k. reflexivity. }
      destruct (str_eqb k (lit "build")) eqn:Et.
      { apply str_eqb_eq in Et. subst k. reflexivity. }
      destruct (str_eqb k (lit "last_modified")) eqn:Elm.
      { apply str_eqb_eq in Elm. contradiction. }
      destruct (str_eqb k (lit "schema")) eqn:Es.
      { apply str_eqb_eq in Es. contradiction. }
      cbn [dict_get]. rewrite Eid, Et, Elm, Es. reflexivity.
  - apply Hsame.
    change (stripVolatile r1) with [(lit "id", VStr (lit "a")); (lit "build", build)].
    change (stripVolatile r3) with r3.
    apply (same_dict _ [(lit "build", build); (lit "id", VStr (lit "a"))]).
    + apply (bool_decide_unpack _). vm_compute. reflexivity.
    + apply perm_swap.
    + constructor; [split; [reflexivity|]|].
      * apply (same_dict _ [(lit "number", VInt 2); (lit "id", VInt 1)]).
        -- apply (bool_decide_unpack _). vm_compute. reflexivity.
        -- apply perm_swap.
        -- constructor; [split; [reflexivity|apply same_refl]|].
           constructor; [split; [reflexivity|apply same_refl]|]. constructor.
      * constructor; [split; [reflexivity|apply same_refl]|]. constructor.
  - destruct (Hst [VDict r1] 0%nat) as [Hd Hk]; [reflexivity|].
    split; [exact Hd|]. apply Hk. reflexivity.
Defined.

(** One conflict and one success. *)
Lemma publish_records_aggregates_witness :
  let py_str := fun v => match v with VStr s => s | _ => lit "{...}" end in
  let conflict :=
    VDict [(lit "code", VInt 412);
           (lit "details",
            VDict [(lit "existing", VDict [(lit "id", VStr (lit "abc"))])])] in
  let success := VDict [(lit "data", VDict [(lit "id", VStr (lit "def"))])] in
  publish_records py_str (fun _ => [conflict; success]) [entry_a; entry_a] =
  Raise (ValueError (lit "Record 'abc' already exists: {...}")).
Proof.
  intros py_str conflict success.
  destruct (publish_records_aggregates py_str (fun _ => [conflict; success])
              [entry_a; entry_a]
              [update_record entry_a; update_record entry_a]) as [H _].
  - reflexivity.
  - repeat constructor; try (eexists; reflexivity); intros code; vm_compute;
      congruence.
  - rewrite H. vm_compute. reflexivity.
Defined.

(** Two valid items, then one with neither key, then a valid one. *)
Lemma produce_enqueues_in_order_witness :
  let good := [(lit "data", data_a)] in
  let perm := [(lit "permission", VDict [])] in
  let bad := [(lit "title", VStr (lit "x"))] in
  produce [VDict good; VDict perm] [] =
    (Ok tt, [Record_ (VDict good); Record_ (VDict perm); Done]) /\
  produce [VDict good; VDict perm; VDict bad; VDict good] [] =
    (Raise (ValueError (lit "Invalid record (missing 'data' attribute)")),
     [Record_ (VDict good); Record_ (VDict perm)]).
Proof.
  intros good perm bad. split.
  - destruct (produce_enqueues_in_order [good; perm] []) as [H _].
    apply H.
    constructor; [left; reflexivity|]. constructor; [right; reflexivity|].
    constructor.
  - destruct (produce_enqueues_in_order [good; perm; bad; good] []) as [_ H].
    apply (H [good; perm] bad [good]).
    + reflexivity.
    + constructor; [left; reflexivity|]. constructor; [right; reflexivity|].
      constructor.
    + intros [H'|H']; vm_compute in H'; discriminate.
Defined.

(** * Further properties of the code *)

(** ** The digest *)

Lemma le_bytes_range (n : nat) (x : Z) :
  Forall (fun b => 0 <= b < 256) (MD5.le_bytes n x).
Proof.
  revert x. induction n as [|n IH]; intros x; simpl; constructor; auto.
  apply Z.mod_pos_bound. lia.
Qed.

Lemma hex_digit_is_hex (n : Z) : 0 <= n < 16 -> is_hex (MD5.hex_digit n) = true.
Proof.
  intros H. unfold is_hex, MD5.hex_digit. apply orb_true_iff.
  destruct (Z.ltb_spec n 10); [left|right];
    apply andb_true_iff; split; apply N.leb_le; lia.
Qed.

Lemma hexdigest_is_hex (msg : list Z) :
  Forall (fun c => is_hex c = true) (MD5.hexdigest msg).
Proof.
  unfold MD5.hexdigest.
  assert (H : Forall (fun b => 0 <= b < 256) (MD5.digest msg)).
  { unfold MD5.digest. cbv zeta. repeat apply Forall_app_2; apply le_bytes_range. }
  induction H as [|b bs Hb _ IH]; simpl; [constructor|].
  constructor; [|constructor; [|exact IH]]; apply hex_digit_is_hex.
  - split; [apply Z.div_pos; lia|apply Z.div_lt_upper_bound; lia].
  - apply Z.mod_pos_bound. lia.
Qed.

(** X1. What [hash_record] returns is, as its docstring says, a string of
    32 characters, each a lower-case hexadecimal digit. *)
Theorem hash_record_digest_shape (record : value) (h : str) :
  hash_record record = Ok h ->
  length h = 32%nat /\ Forall (fun c => is_hex c = true) h.
Proof.
  intros H. split; [exact (hash_record_length record h H)|].
  destruct record; try discriminate. rewrite hash_record_dict in H.
  unfold md5_hexdigest in H.
  destruct (encode_utf8 _) as [bs|]; [|discriminate].
  injection H as <-. apply hexdigest_is_hex.
Qed.

Lemma hash_record_digest_shape_witness :
  length hash_a = 32%nat /\ Forall (fun c => is_hex c = true) hash_a.
Proof. apply (hash_record_digest_shape data_a hash_a). vm_compute. reflexivity. Defined.

(** ** The dump is printable ASCII, so the digest always comes out *)

Lemma printable_app (a b : str) :
  forallb printable a = true -> forallb printable b = true ->
  forallb printable (a ++ b) = true.
Proof. intros Ha Hb. rewrite forallb_app, Ha, Hb. reflexivity. Qed.

Lemma printable_join (sep : str) (l : list str) :
  forallb printable sep = true ->
  Forall (fun s => forallb printable s = true) l ->
  forallb printable (join sep l) = true.
Proof.
  intros Hsep H. induction H as [|s l Hs Hl IH]; [reflexivity|].
  destruct l as [|s' l']; [exact Hs|].
  change (join sep (s :: s' :: l')) with (s ++ sep ++ join sep (s' :: l')).
  auto using printable_app.
Qed.

Lemma hex_nibble_printable (n : N) :
  (n < 16)%N -> printable (hex_nibble n) = true.
Proof.
  intros H. unfold printable, hex_nibble. apply andb_true_iff.
  destruct (N.ltb_spec n 10); split; apply N.leb_le; lia.
Qed.

Lemma escape_u_printable (c : N) : forallb printable (escape_u c) = true.
Proof.
  unfold escape_u. apply printable_app; [reflexivity|].
  cbn [forallb].
  rewrite !hex_nibble_printable by (apply N.mod_lt; discriminate).
  reflexivity.
Qed.

Lemma escape_char_printable (c : N) : forallb printable (escape_char c) = true.
Proof.
  unfold escape_char.
  repeat match goal with
         | |- context [if ?b then _ else _] =>
             let E := fresh "E" in destruct b eqn:E; [try reflexivity|]
         end;
    auto using escape_u_printable, printable_app.
  cbn [forallb]. unfold printable. rewrite E6. reflexivity.
Qed.

Lemma encode_basestring_ascii_printable (s : str) :
  forallb printable (encode_basestring_ascii s) = true.
Proof.
  unfold encode_basestring_ascii.
  apply printable_app; [reflexivity|]. apply printable_app; [|reflexivity].
  induction s as [|c s IH]; [reflexivity|]. simpl concat.
  apply printable_app; [apply escape_char_printable|exact IH].
Qed.

Lemma string_of_uint_printable (d : Decimal.uint) :
  forallb printable (lit (NilEmpty.string_of_uint d)) = true.
Proof. induction d; simpl; auto. Qed.

Lemma str_of_Z_printable (n : Z) : forallb printable (str_of_Z n) = true.
Proof.
  unfold str_of_Z, NilZero.string_of_int, NilZero.string_of_uint.
  destruct (Z.to_int n) as [d|d]; destruct d; try reflexivity;
    try apply string_of_uint_printable;
    match goal with
    | |- forallb printable (lit (String _ (NilEmpty.string_of_uint ?u))) = true =>
        exact (string_of_uint_printable u)
    end.
Qed.

Lemma floatstr_printable (r : str) :
  forallb printable r = true -> forallb printable (floatstr r) = true.
Proof.
  intros H. unfold floatstr.
  repeat match goal with
         | |- context [if ?b then _ else _] => destruct b; [reflexivity|]
         end.
  exact H.
Qed.

Lemma sort_items_printable (sort_keys : bool) (items : list (str * str)) :
  Forall (fun kv => forallb printable (snd kv) = true) items ->
  Forall (fun kv => forallb printable (snd kv) = true)
    (sort_items sort_keys items).
Proof.
  intros H. destruct sort_keys; [|exact H]. unfold sort_items.
  eapply Permutation_Forall; [|exact H].
  symmetry. apply merge_sort_Permutation.
Qed.

Lemma json_dumps_printable (sort_keys : bool) (v : value) :
  ascii_floats v = true -> forallb printable (json_dumps sort_keys v) = true.
Proof.
  revert v. fix IH 1. intros v Hv.
  destruct v as [|b|n|r|s|l|d].
  - reflexivity.
  - destruct b; reflexivity.
  - apply str_of_Z_printable.
  - apply floatstr_printable. exact Hv.
  - apply encode_basestring_ascii_printable.
  - cbn [json_dumps]. apply printable_app; [reflexivity|].
    apply printable_app; [|reflexivity].
    apply printable_join; [reflexivity|].
    cbn [ascii_floats] in Hv. revert l Hv.
    refine (fix go l : forallb ascii_floats l = true ->
              Forall (fun s => forallb printable s = true)
                (map (json_dumps sort_keys) l) := _).
    destruct l as [|x l]; intros Hl; [constructor|].
    cbn [forallb] in Hl. apply andb_prop in Hl as [Hx Hl].
    constructor; [exact (IH x Hx)|exact (go l Hl)].
  - rewrite json_dumps_dict. apply printable_app; [reflexivity|].
    apply printable_app; [|reflexivity].
    apply printable_join; [reflexivity|].
    apply Forall_map.
    assert (Hitems : Forall (fun kv : str * str => forallb printable (snd kv) = true)
              (map (fun kv => (fst kv, json_dumps sort_keys (snd kv))) d)).
    { cbn [ascii_floats] in Hv. revert d Hv.
      refine (fix go d : forallb (fun kv => ascii_floats (snd kv)) d = true ->
                Forall (fun kv : str * str => forallb printable (snd kv) = true)
                  (map (fun kv => (fst kv, json_dumps sort_keys (snd kv))) d) := _).
      destruct d as [|[k x] d]; intros Hd; [constructor|].
      cbn [forallb snd] in Hd. apply andb_prop in Hd as [Hx Hd].
      constructor; [exact (IH x Hx)|exact (go d Hd)]. }
    eapply Forall_impl; [apply sort_items_printable, Hitems|].
    intros [k x] Hx. cbn [fst snd] in *.
    apply printable_app; [apply encode_basestring_ascii_printable|].
    apply printable_app; [reflexivity|exact Hx].
Qed.

Lemma encode_utf8_printable (s : str) :
  forallb printable s = true -> encode_utf8 s = Ok (map Z.of_N s).
Proof.
  induction s as [|c s IH]; [reflexivity|].
  cbn [forallb]. intros H. apply andb_prop in H as [Hc Hs].
  cbn [encode_utf8 map]. rewrite (IH Hs).
  unfold utf8_char, printable in *. apply andb_prop in Hc as [_ Hc].
  apply N.leb_le in Hc.
  destruct (Z.ltb_spec (Z.of_N c) 128); [reflexivity|lia].
Qed.

Lemma ascii_floats_pop (k : str) (d : dict) :
  ascii_floats (VDict d) = true -> ascii_floats (VDict (dict_pop k d)) = true.
Proof.
  cbn [ascii_floats]. unfold dict_pop.
  induction d as [|[k' v] d IH]; [reflexivity|].
  cbn [forallb List.filter fst snd]. intros H. apply andb_prop in H as [Hv Hd].
  destruct (negb (str_eqb k k')); cbn [forallb snd]; rewrite ?Hv; auto.
Qed.

Lemma hash_record_mutate_ok (record : dict) :
  ascii_floats (VDict record) = true ->
  exists h,
    hash_record (VDict record) = Ok h /\
    hash_record_mutate (VDict record) = Ok (h, VDict (stripVolatile record)) /\
    h = MD5.hexdigest
          (map Z.of_N (json_dumps true (VDict (stripVolatile record)))).
Proof.
  intros H.
  assert (Hs : ascii_floats (VDict (stripVolatile record)) = true)
    by (unfold stripVolatile; auto using ascii_floats_pop).
  pose proof (encode_utf8_printable _ (json_dumps_printable true _ Hs)) as He.
  eexists. rewrite hash_record_dict, hash_record_mutate_dict.
  unfold md5_hexdigest. rewrite He. cbn [bind]. auto.
Qed.

(** X2. On a JSON object the two hashing functions never raise: the dump
    is printable ASCII whatever strings the record holds, so it encodes and
    the digest comes out.  The mutating variant leaves the record without
    its two volatile fields. *)
Theorem hash_record_total_on_objects (record : dict) :
  ascii_floats (VDict record) = true ->
  exists h,
    hash_record (VDict record) = Ok h /\
    hash_record_mutate (VDict record) = Ok (h, VDict (stripVolatile record)) /\
    h = MD5.hexdigest
          (map Z.of_N (json_dumps true (VDict (stripVolatile record)))).
Proof. apply hash_record_mutate_ok. Qed.

Lemma hash_record_total_on_objects_witness :
  exists h,
    hash_record data_a = Ok h /\
    hash_record_mutate data_a = Ok (h, data_a) /\
    h = MD5.hexdigest (map Z.of_N (json_dumps true data_a)).
Proof.
  apply (hash_record_total_on_objects
           [(lit "id", VStr (lit "a")); (lit "title", VStr (lit "x"))]).
  reflexivity.
Defined.

(** ** hash_record_mutate changes its argument *)

(** X3. [hash_record_mutate] returns the digest [hash_record] returns,
    but on the object it is given: after the call that object has lost
    [last_modified] and [schema] and kept its other fields, every other
    object is untouched, and a second call gives the same digest. *)
Theorem hash_record_mutate_in_place (st : Obj.store) (r : Obj.ref) (d : dict) :
  st !! r = Some (VDict d) ->
  let st' := snd (Obj.hash_record_mutate r st) in
  fst (Obj.hash_record_mutate r st) = hash_record (VDict d) /\
  (exists d', st' !! r = Some (VDict d') /\
     dict_get (lit "last_modified") d' = None /\
     dict_get (lit "schema") d' = None /\
     forall k, k <> lit "last_modified" -> k <> lit "schema" ->
               dict_get k d' = dict_get k d) /\
  (forall r', r' <> r -> st' !! r' = st !! r') /\
  fst (Obj.hash_record_mutate r st') = hash_record (VDict d).
Proof.
  intros Hr. cbv zeta. rewrite (obj_hash_record_mutate_dict r st d Hr).
  cbn [fst snd]. unfold Obj.store, Obj.ref in *.
  assert (Hlt : (r < length st)%nat) by (eapply lookup_lt_Some; eauto).
  assert (Hr' : <[r:=VDict (stripVolatile d)]> st !! r
                = Some (VDict (stripVolatile d)))
    by (apply list_lookup_insert_eq; exact Hlt).
  repeat apply conj.
  - reflexivity.
  - exists (stripVolatile d).
    destruct (stripVolatile_has_no_volatile d) as [H1 H2].
    repeat apply conj; auto using stripVolatile_keeps.
  - intros r' Hne. apply list_lookup_insert_ne. congruence.
  - rewrite (obj_hash_record_mutate_dict r _ _ Hr'). cbn [fst].
    apply hash_record_strip_eq, stripVolatile_idemp.
Qed.

Lemma hash_record_mutate_in_place_witness :
  fst (Obj.hash_record_mutate 1%nat [VNone; remote_a]) = Ok hash_a /\
  snd (Obj.hash_record_mutate 1%nat [VNone; remote_a]) = [VNone; data_a].
Proof.
  destruct (hash_record_mutate_in_place [VNone; remote_a] 1%nat
              [(lit "id", VStr (lit "a")); (lit "last_modified", VInt 5);
               (lit "title", VStr (lit "x"))]) as (H & _).
  - reflexivity.
  - split; [rewrite H; vm_compute; reflexivity|reflexivity].
Defined.

(** ** fetch_existing *)

Lemma store_records_app (records : dict) (l1 l2 : list value) :
  store_records records (l1 ++ l2) =
  (records' <- store_records records l1 ;; store_records records' l2).
Proof.
  revert records. induction l1 as [|r l1 IH]; intros records; [reflexivity|].
  cbn [app store_records].
  destruct (store_record records r) as [r1|e]; cbn [bind]; [apply IH|reflexivity].
Qed.

Lemma fetch_existing_store_records (records : dict) (batches : list (list value)) :
  fetch_existing records batches = store_records records (concat batches).
Proof.
  revert records. induction batches as [|b rest IH]; intros records; [reflexivity|].
  cbn [fetch_existing concat]. rewrite store_records_app.
  destruct (store_records records b); cbn [bind]; [apply IH|reflexivity].
Qed.

(** X4. How the server cuts the records into batches (pages) does not
    matter: two fetches that see the same records in the same order, cut
    differently, end alike, with the same cache or the same exception. *)
Theorem fetch_existing_concat (records : dict)
    (batches batches' : list (list value)) :
  concat batches = concat batches' ->
  fetch_existing records batches = fetch_existing records batches'.
Proof. intros H. rewrite !fetch_existing_store_records, H. reflexivity. Qed.

Lemma fetch_existing_concat_witness :
  fetch_existing [] [[remote_a]; [remote_a; remote_a]] =
  fetch_existing [] [[remote_a; remote_a; remote_a]].
Proof. apply fetch_existing_concat. reflexivity. Defined.

(** What one pass of the loop body does when it succeeds. *)
Lemma store_record_ok (records records' : dict) (record : value) :
  store_record records record = Ok records' ->
  exists d k last_modified h,
    record = VDict d /\
    dict_get (lit "id") d = Some (VStr k) /\
    dict_get (lit "last_modified") d = Some last_modified /\
    hash_record record = Ok h /\
    records' = dict_set k (VList [last_modified; VStr h]) records.
Proof.
  unfold store_record. destruct record as [| | | | | |d]; try discriminate.
  cbn [getitem]. destruct (dict_get (lit "last_modified") d) as [lm|] eqn:Elm;
    [|discriminate].
  cbn [bind]. rewrite hash_record_mutate_dict, hash_record_dict.
  destruct (md5_hexdigest _) as [h|]; [|discriminate]. cbn [bind fst snd getitem].
  rewrite stripVolatile_keeps by (vm_compute; discriminate).
  destruct (dict_get (lit "id") d) as [id|] eqn:Eid; [|discriminate].
  cbn [bind]. destruct id; try discriminate. cbn [setitem]. intros [= <-].
  exists d, s, lm, h. auto.
Qed.

Lemma store_records_untouched (new_records : list value) (records records' : dict)
    (k : str) :
  store_records records new_records = Ok records' ->
  Forall (fun record => getitem record (lit "id") <> Ok (VStr k)) new_records ->
  dict_get k records' = dict_get k records.
Proof.
  revert records. induction new_records as [|r rest IH]; intros records.
  - intros [= <-] _. reflexivity.
  - cbn [store_records]. destruct (store_record records r) as [r1|] eqn:E;
      [|discriminate].
    cbn [bind]. intros H Hall. apply Forall_cons in Hall as [Hr Hrest].
    rewrite (IH _ H Hrest).
    apply store_record_ok in E as (d & k' & lm & h & -> & Hid & _ & _ & ->).
    rewrite dict_get_set. destruct (str_eqb k k') eqn:Ek; [|reflexivity].
    apply str_eqb_eq in Ek. subst k'. exfalso. apply Hr.
    cbn [getitem]. rewrite Hid. reflexivity.
Qed.

(** X5. After a successful fetch, the entry of an id is
    [[last_modified, hash_record(record)]] for the last fetched record with
    that id, and an id that no fetched record has keeps the entry it had in
    the cache file. *)
Theorem fetch_existing_lookup (records records' : dict)
    (batches : list (list value)) (k : str) :
  fetch_existing records batches = Ok records' ->
  (Forall (fun record => getitem record (lit "id") <> Ok (VStr k))
     (concat batches) ->
   dict_get k records' = dict_get k records) /\
  (forall pre record post,
      concat batches = pre ++ record :: post ->
      getitem record (lit "id") = Ok (VStr k) ->
      Forall (fun record => getitem record (lit "id") <> Ok (VStr k)) post ->
      exists last_modified h,
        getitem record (lit "last_modified") = Ok last_modified /\
        hash_record record = Ok h /\
        dict_get k records' = Some (VList [last_modified; VStr h])).
Proof.
  rewrite fetch_existing_store_records. intros H. split.
  - apply store_records_untouched. exact H.
  - intros pre record post E Hid Hpost. rewrite E in H.
    rewrite store_records_app in H.
    destruct (store_records records pre) as [r1|]; [|discriminate].
    cbn [bind store_records] in H.
    destruct (store_record r1 record) as [r2|] eqn:E2; [|discriminate].
    cbn [bind] in H. rewrite (store_records_untouched _ _ _ _ H Hpost).
    apply store_record_ok in E2 as (d & k' & lm & h & -> & Hid' & Hlm & Hh & ->).
    cbn [getitem] in Hid. rewrite Hid' in Hid. injection Hid as ->.
    exists lm, h. cbn [getitem]. rewrite Hlm, dict_get_set, str_eqb_refl. auto.
Qed.

Lemma fetch_existing_lookup_witness :
  dict_get (lit "a") store_a = Some (VList [VInt 5; VStr hash_a]) /\
  dict_get (lit "b") store_a = None.
Proof.
  destruct (fetch_existing_lookup [] store_a [[remote_a]] (lit "a")) as [_ H];
    [vm_compute; reflexivity|].
  destruct (fetch_existing_lookup [] store_a [[remote_a]] (lit "b")) as [H' _];
    [vm_compute; reflexivity|].
  split.
  - destruct (H [] remote_a []) as (lm & h & Hlm & Hh & Hg);
      [reflexivity|reflexivity|constructor|].
    rewrite Hg. vm_compute in Hlm, Hh.
    injection Hlm as <-. injection Hh as <-. reflexivity.
  - rewrite H'; [reflexivity|].
    constructor; [vm_compute; discriminate|constructor].
Defined.

Lemma dict_set_keys (k k' : str) (v : value) (d : dict) :
  In k' (map fst (dict_set k v d)) <-> k' = k \/ In k' (map fst d).
Proof.
  induction d as [|[k0 v0] d IH]; simpl.
  - intuition.
  - destruct (str_eqb k k0) eqn:E; simpl.
    + apply str_eqb_eq in E. subst k0. intuition.
    + rewrite IH. intuition.
Qed.

Lemma dict_set_NoDup (k : str) (v : value) (d : dict) :
  NoDup (map fst d) -> NoDup (map fst (dict_set k v d)).
Proof.
  induction d as [|[k0 v0] d IH]; simpl; intros Hnd.
  - apply NoDup_cons. split; [|constructor]. intros H. inversion H.
  - apply NoDup_cons in Hnd as [Hk Hnd].
    destruct (str_eqb k k0) eqn:E; simpl.
    + apply str_eqb_eq in E. subst k0. apply NoDup_cons. auto.
    + apply NoDup_cons. split; [|auto].
      rewrite list_elem_of_In, dict_set_keys. intros [->|Hin].
      * rewrite str_eqb_refl in E. discriminate.
      * apply Hk, list_elem_of_In, Hin.
Qed.

Lemma store_records_NoDup (new_records : list value) (records records' : dict) :
  NoDup (map fst records) -> store_records records new_records = Ok records' ->
  NoDup (map fst records').
Proof.
  revert records. induction new_records as [|r rest IH]; intros records Hnd.
  - intros [= <-]. exact Hnd.
  - cbn [store_records]. destruct (store_record records r) as [r1|] eqn:E;
      [|discriminate].
    cbn [bind]. apply IH.
    apply store_record_ok in E as (d & k & lm & h & _ & _ & _ & _ & ->).
    apply dict_set_NoDup, Hnd.
Qed.

(** X6. [fetch_existing] keeps the cache well formed: if the cache file
    held distinct ids, each with a [[last_modified, hash]] pair, so does the
    cache it returns. *)
Theorem fetch_existing_well_formed (records records' : dict)
    (batches : list (list value)) :
  NoDup (map fst records) -> cache_store records ->
  fetch_existing records batches = Ok records' ->
  NoDup (map fst records') /\ cache_store records'.
Proof.
  intros Hnd Hs H. split.
  - rewrite fetch_existing_store_records in H. eapply store_records_NoDup; eauto.
  - eapply fetch_existing_cache_store; eauto.
Qed.

Lemma fetch_existing_well_formed_witness :
  NoDup (map fst store_a) /\ cache_store store_a.
Proof.
  apply (fetch_existing_well_formed [] store_a [[remote_a]]).
  - constructor.
  - intros k v. discriminate.
  - vm_compute. reflexivity.
Defined.

(** X7. A fetched record without [last_modified], or without [id], makes
    [fetch_existing] end in a [KeyError]: no cache comes back, whatever the
    records before it stored. *)
Theorem fetch_existing_missing_key (records r1 : dict)
    (batches : list (list value)) (pre post : list value) (d : dict) :
  concat batches = pre ++ VDict d :: post ->
  store_records records pre = Ok r1 ->
  (dict_get (lit "last_modified") d = None ->
   fetch_existing records batches = Raise (KeyError (lit "last_modified"))) /\
  (dict_get (lit "last_modified") d <> None ->
   ascii_floats (VDict d) = true ->
   dict_get (lit "id") d = None ->
   fetch_existing records batches = Raise (KeyError (lit "id"))).
Proof.
  intros E Hpre. rewrite fetch_existing_store_records, E, store_records_app, Hpre.
  cbn [bind store_records]. unfold store_record. cbn [getitem]. split.
  - intros ->. reflexivity.
  - intros Hlm Hf Hid.
    destruct (dict_get (lit "last_modified") d); [|contradiction]. cbn [bind].
    destruct (hash_record_mutate_ok d Hf) as (h & _ & -> & _).
    cbn [bind fst snd getitem].
    rewrite stripVolatile_keeps by (vm_compute; discriminate).
    rewrite Hid. reflexivity.
Qed.

Lemma fetch_existing_missing_key_witness :
  fetch_existing [] [[remote_a]; [data_a]] = Raise (KeyError (lit "last_modified")) /\
  fetch_existing [] [[remote_a; VDict [(lit "last_modified", VInt 1)]]]
    = Raise (KeyError (lit "id")).
Proof.
  split.
  - destruct (fetch_existing_missing_key [] store_a [[remote_a]; [data_a]]
                [remote_a] []
                [(lit "id", VStr (lit "a")); (lit "title", VStr (lit "x"))])
      as [H _]; [reflexivity|vm_compute; reflexivity|].
    apply H. reflexivity.
  - destruct (fetch_existing_missing_key [] store_a
                [[remote_a; VDict [(lit "last_modified", VInt 1)]]]
                [remote_a] [] [(lit "last_modified", VInt 1)])
      as [_ H]; [reflexivity|vm_compute; reflexivity|].
    apply H; [discriminate|reflexivity|reflexivity].
Defined.

(** ** publish_records: the operations of a batch *)

Lemma batch_operations_app (pre rest : list value) (ops : list operation) :
  batch_operations pre = Ok ops ->
  batch_operations (pre ++ rest) =
  (ops' <- batch_operations rest ;; Ok (ops ++ ops')).
Proof.
  revert ops. induction pre as [|r pre IH]; intros ops.
  - intros [= <-]. cbn [app]. destruct (batch_operations rest); reflexivity.
  - cbn [app batch_operations].
    destruct (getitem r (lit "data")) as [data|]; [|discriminate]. cbn [bind].
    destruct (contains (lit "id") data) as [has_id|]; [|discriminate]. cbn [bind].
    destruct (batch_operations pre) as [ops1|]; [|discriminate]. cbn [bind].
    intros [= <-]. rewrite (IH ops1 eq_refl).
    destruct (batch_operations rest); reflexivity.
Qed.

(** X8. When the batch can be built it holds one operation per record, in
    the order of the records: an update for a record whose [data] has an
    [id], a creation for one whose [data] has none. *)
Theorem batch_operations_one_per_record (records : list value)
    (ops : list operation) :
  batch_operations records = Ok ops ->
  Forall2
    (fun record op =>
       exists data,
         getitem record (lit "data") = Ok data /\
         (contains (lit "id") data = Ok true /\ op = update_record record \/
          contains (lit "id") data = Ok false /\ op = create_record record))
    records ops.
Proof.
  revert ops. induction records as [|r rest IH]; intros ops.
  - intros [= <-]. constructor.
  - cbn [batch_operations].
    destruct (getitem r (lit "data")) as [data|] eqn:Ed; [|discriminate].
    cbn [bind].
    destruct (contains (lit "id") data) as [has_id|] eqn:Ec; [|discriminate].
    cbn [bind].
    destruct (batch_operations rest) as [ops1|]; [|discriminate]. cbn [bind].
    intros [= <-]. constructor; [|apply IH; reflexivity].
    exists data. split; [exact Ed|]. destruct has_id; auto.
Qed.

Lemma batch_operations_one_per_record_witness :
  Forall2
    (fun record op =>
       exists data,
         getitem record (lit "data") = Ok data /\
         (contains (lit "id") data = Ok true /\ op = update_record record \/
          contains (lit "id") data = Ok false /\ op = create_record record))
    [entry_a; VDict [(lit "data", VDict [])]]
    [update_record entry_a; create_record (VDict [(lit "data", VDict [])])].
Proof. apply batch_operations_one_per_record. reflexivity. Defined.

(** X9. A record without [data] among the records of a batch makes
    [publish_records] raise [KeyError('data')], whatever the server would
    answer: no sub-result is looked at. *)
Theorem publish_records_needs_data (py_str : value -> str) (c : client)
    (pre post : list value) (d : dict) (ops : list operation) :
  batch_operations pre = Ok ops ->
  dict_get (lit "data") d = None ->
  publish_records py_str c (pre ++ VDict d :: post) =
  Raise (KeyError (lit "data")).
Proof.
  intros Hpre Hd. unfold publish_records.
  rewrite (batch_operations_app _ _ _ Hpre). cbn [batch_operations getitem].
  rewrite Hd. reflexivity.
Qed.

Lemma publish_records_needs_data_witness :
  publish_records (fun _ => []) (fun _ => [])
    [entry_a; VDict [(lit "permission", VDict [])]; entry_a]
  = Raise (KeyError (lit "data")).
Proof.
  apply (publish_records_needs_data _ _ [entry_a] [entry_a]
           [(lit "permission", VDict [])] [update_record entry_a]);
    reflexivity.
Defined.

(** ** produce on values that are not JSON objects *)

(** X10. [produce] tests its items with Python's [in], on any value: the
    items the test accepts are queued in order, and production stops at the
    first item it does not accept, with nothing queued from there on and no
    sentinel.  For a number, a boolean or [None] the error is the
    [TypeError] of the test itself, not the [ValueError] of the
    validation. *)
Theorem produce_on_any_values (pre post : list value) (bad : value)
    (queue : list item) :
  Forall (fun record => has_payload record = Ok true) pre ->
  (has_payload bad = Ok false ->
   produce (pre ++ bad :: post) queue =
   (Raise (ValueError (lit "Invalid record (missing 'data' attribute)")),
    queue ++ map Record_ pre)) /\
  ((forall d, bad <> VDict d) -> (forall l, bad <> VList l) ->
   (forall s, bad <> VStr s) ->
   produce (pre ++ bad :: post) queue =
   (Raise TypeError, queue ++ map Record_ pre)).
Proof.
  intros Hpre. split.
  - intros Hbad. rewrite produce_stops; [|exact Hpre|congruence].
    rewrite Hbad. reflexivity.
  - intros Hd Hl Hs.
    assert (Hbad : has_payload bad = Raise TypeError).
    { destruct bad; try reflexivity; exfalso; [eapply Hs|eapply Hl|eapply Hd];
        reflexivity. }
    rewrite produce_stops; [|exact Hpre|congruence].
    rewrite Hbad. reflexivity.
Qed.

Lemma produce_on_any_values_witness :
  produce [entry_a; VList [VStr (lit "x")]; entry_a] [] =
    (Raise (ValueError (lit "Invalid record (missing 'data' attribute)")),
     [Record_ entry_a]) /\
  produce [entry_a; VInt 5; entry_a] [] = (Raise TypeError, [Record_ entry_a]).
Proof.
  split.
  - apply (produce_on_any_values [entry_a] [entry_a] (VList [VStr (lit "x")]) []).
    + constructor; [reflexivity|constructor].
    + reflexivity.
  - apply (produce_on_any_values [entry_a] [entry_a] (VInt 5) []).
    + constructor; [reflexivity|constructor].
    + discriminate.
    + discriminate.
    + discriminate.
Defined.

(** ** consume: what becomes of the items it pulls *)

Lemma consume_events_app (size : Z) (existing : dict) (l1 l2 : list event)
    (c : consumer) :
  consume_events size existing (l1 ++ l2) c =
  match consume_events size existing l1 c with
  | Waiting c1 => consume_events size existing l2 c1
  | s => s
  end.
Proof.
  revert c. induction l1 as [|ev l1 IH]; intros c; [reflexivity|].
  destruct ev as [[record|]|]; cbn [app consume_events]; try apply IH.
  destruct (skip_unchanged existing record) as [[|]|]; try apply IH.
  reflexivity.
Qed.

Lemma pulled_length (events : list event) :
  length (pulled events) = (sentinels_of events + length (records_of events))%nat.
Proof.
  induction events as [|[[r|]|] rest IH]; cbn [pulled sentinels_of records_of length];
    lia.
Qed.

Lemma batched_or_skipped_length (existing : dict) (l : list value) :
  Forall (fun r => batched existing r || skipped existing r = true) l ->
  (length (List.filter (batched existing) l) +
   length (List.filter (skipped existing) l) = length l)%nat.
Proof.
  induction 1 as [|r l Hr _ IH]; [reflexivity|].
  cbn [List.filter]. unfold batched, skipped in *.
  destruct (skip_unchanged existing r) as [[|]|]; cbn [length] in *;
    try discriminate; lia.
Qed.

Lemma consume_events_accounts (size : Z) (existing : dict)
    (events : list event) (c c' : consumer) :
  consume_events size existing events c = Waiting c' ->
  concat (dispatched c') ++ batch c' =
    concat (dispatched c) ++ batch c ++
    List.filter (batched existing) (records_of events) /\
  task_done c' =
    (task_done c + sentinels_of events +
     length (List.filter (skipped existing) (records_of events)))%nat /\
  Forall (fun r => batched existing r || skipped existing r = true)
    (records_of events).
Proof.
  revert c. induction events as [|ev rest IH]; intros c.
  - intros [= <-]. cbn. rewrite app_nil_r. repeat split; [lia|constructor].
  - destruct ev as [[record|]|];
      cbn [consume_events records_of sentinels_of List.filter].
    + destruct (skip_unchanged existing record) as [[|]|] eqn:E;
        [| |discriminate].
      * assert (Hb : batched existing record = false)
          by (unfold batched; rewrite E; reflexivity).
        assert (Hs : skipped existing record = true)
          by (unfold skipped; rewrite E; reflexivity).
        rewrite Hb, Hs. intros H. apply IH in H as (H1 & H2 & H3).
        rewrite H1, H2. cbn [mark_done batch dispatched task_done length].
        repeat split; [lia|]. constructor; [rewrite Hb, Hs; reflexivity|exact H3].
      * assert (Hb : batched existing record = true)
          by (unfold batched; rewrite E; reflexivity).
        assert (Hs : skipped existing record = false)
          by (unfold skipped; rewrite E; reflexivity).
        rewrite Hb, Hs. intros H. apply IH in H as (H1 & H2 & H3).
        rewrite H1, H2, app_assoc. clear H1 H2.
        match goal with |- context [if ?b then ?x else dispatch ?x] =>
          assert (Hx : concat (dispatched (if b then x else dispatch x)) ++
                       batch (if b then x else dispatch x) =
                       concat (dispatched x) ++ batch x /\
                       task_done (if b then x else dispatch x) = task_done x)
            by (destruct b; [auto|apply dispatch_keeps_records]);
          destruct Hx as [-> ->]
        end.
        cbn [batch dispatched task_done]. rewrite <- !app_assoc.
        repeat split. constructor; [rewrite Hb; reflexivity|exact H3].
    + intros H. apply IH in H as (H1 & H2 & H3). rewrite H1, H2, app_assoc.
      destruct (dispatch_keeps_records (mark_done c)) as [-> ->].
      cbn [mark_done batch dispatched task_done]. rewrite <- app_assoc.
      repeat split; [lia|exact H3].
    + intros H. apply IH in H as (H1 & H2 & H3). rewrite H1, H2, app_assoc.
      destruct (dispatch_keeps_records c) as [-> ->]. rewrite <- app_assoc.
      auto.
Qed.

Lemma consume_waiting (B b : Z) (existing : dict) (events : list event)
    (s : status) :
  consume B b existing events = s -> s <> Spinning ->
  0 < Z.min B b /\
  consume_events (Z.min B b) existing events (Consumer [] [] 0) = s.
Proof.
  unfold consume. cbv zeta. destruct (Z.ltb_spec 0 (Z.min B b)).
  - auto.
  - intros <- H'. contradiction.
Qed.

Lemma consume_accounts_for_every_item_aux (B b : Z) (existing : dict)
    (events : list event) (c : consumer) :
  consume B b existing events = Waiting c ->
  concat (dispatched c) ++ batch c =
    List.filter (batched existing) (records_of events) /\
  task_done c =
    (sentinels_of events +
     length (List.filter (skipped existing) (records_of events)))%nat.
Proof.
  intros H. apply consume_waiting in H as [_ H]; [|discriminate].
  apply consume_events_accounts in H as (H1 & H2 & _).
  cbn [dispatched batch task_done concat app] in H1, H2. auto.
Qed.

(** X11. While the consumer is alive every item it pulled is accounted
    for once: the records it did not skip are, in the order they were
    pulled, in the dispatched batches followed by the batch being filled;
    the sentinels and the skipped records are the items it marked done
    itself.  Timeouts and the batch size only move the cuts between
    batches. *)
Theorem consume_accounts_for_every_item (B b : Z) (existing : dict)
    (events : list event) (c : consumer) :
  consume B b existing events = Waiting c ->
  concat (dispatched c) ++ batch c =
    List.filter (batched existing) (records_of events) /\
  task_done c =
    (sentinels_of events +
     length (List.filter (skipped existing) (records_of events)))%nat /\
  (task_done c + length (concat (dispatched c) ++ batch c))%nat =
    length (pulled events).
Proof.
  intros H. apply consume_waiting in H as [_ H]; [|discriminate].
  apply consume_events_accounts in H as (H1 & H2 & H3).
  cbn [dispatched batch task_done concat app] in H1, H2.
  repeat split; [exact H1|exact H2|].
  rewrite H1, H2, pulled_length.
  pose proof (batched_or_skipped_length existing _ H3). lia.
Qed.

Lemma consume_accounts_for_every_item_witness :
  concat [[entry_a]; [entry_a]] ++ [] =
    List.filter (batched store_a) [entry_a; entry_a] /\
  (1 + length (concat [[entry_a]; [entry_a]] ++ []))%nat =
    length (pulled [Get (Record_ entry_a); Timeout; Get (Record_ entry_a); Get Done]).
Proof.
  destruct (consume_accounts_for_every_item 9999 25 store_a
              [Get (Record_ entry_a); Timeout; Get (Record_ entry_a); Get Done]
              (Consumer [] [[entry_a]; [entry_a]] 1)) as (H1 & _ & H3).
  - vm_compute. reflexivity.
  - split; [exact H1|exact H3].
Defined.

(** ** consume: the size of the batches *)

Lemma dispatch_bounded (size : Z) (c : consumer) :
  0 < size ->
  Forall (fun b => b <> [] /\ Z.of_nat (length b) <= size) (dispatched c) ->
  Z.of_nat (length (batch c)) <= size ->
  bounded size (dispatch c).
Proof.
  intros Hsize Hd Hb. unfold bounded, dispatch.
  destruct (batch c) as [|x l] eqn:E.
  - rewrite E. split; [exact Hd|]. cbn. lia.
  - cbn [dispatched batch]. split; [|cbn; lia].
    apply Forall_app_2; [exact Hd|]. constructor; [|constructor].
    split; [discriminate|exact Hb].
Qed.

Lemma consume_events_bounded (size : Z) (existing : dict)
    (events : list event) (c c' : consumer) :
  0 < size -> bounded size c ->
  (consume_events size existing events c = Waiting c' \/
   exists e, consume_events size existing events c = Failed e c') ->
  bounded size c'.
Proof.
  intros Hsize. revert c. induction events as [|ev rest IH]; intros c Hc.
  - cbn. intros [[= <-]|[e H]]; [exact Hc|discriminate].
  - destruct Hc as [Hd Hb].
    destruct ev as [[record|]|]; cbn [consume_events].
    + destruct (skip_unchanged existing record) as [[|]|e'].
      * apply IH. split; assumption.
      * apply IH.
        destruct (Z.ltb_spec
                    (Z.of_nat (length (batch
                       (Consumer (batch c ++ [record]) (dispatched c) (task_done c)))))
                    size) as [Hlt|Hge].
        -- split; assumption.
        -- apply dispatch_bounded; [assumption|exact Hd|].
           cbn [batch]. rewrite length_app. cbn [length]. lia.
      * intros [H|[e H]]; [discriminate|]. injection H as _ <-.
        split; assumption.
    + apply IH. apply dispatch_bounded; [assumption|exact Hd|].
      cbn [mark_done batch]. lia.
    + apply IH. apply dispatch_bounded; [assumption|exact Hd|lia].
Qed.

(** X12. The consumer never dispatches an empty batch, nor one with more
    records than the negotiated size (the smaller of the configured and the
    server's maximum); the batch it is filling stays below that size. *)
Theorem consume_batches_bounded (B b : Z) (existing : dict)
    (events : list event) (c : consumer) :
  (consume B b existing events = Waiting c \/
   exists e, consume B b existing events = Failed e c) ->
  Forall (fun batch => batch <> [] /\ Z.of_nat (length batch) <= Z.min B b)
    (dispatched c) /\
  Z.of_nat (length (batch c)) < Z.min B b.
Proof.
  intros H.
  assert (H' : 0 < Z.min B b /\
               (consume_events (Z.min B b) existing events (Consumer [] [] 0)
                = Waiting c \/
                exists e, consume_events (Z.min B b) existing events
                            (Consumer [] [] 0) = Failed e c)).
  { destruct H as [H|[e H]]; apply consume_waiting in H as [H0 H];
      try discriminate; eauto. }
  destruct H' as [Hsize H'].
  apply (consume_events_bounded _ _ _ _ _ Hsize) in H'; [exact H'|].
  split; [constructor|cbn; lia].
Qed.

Lemma consume_batches_bounded_witness :
  Forall (fun batch => batch <> [] /\ Z.of_nat (length batch) <= Z.min 9999 2)
    [[entry_a; entry_a]; [entry_a]] /\
  Z.of_nat (length (@nil value)) < Z.min 9999 2.
Proof.
  apply (consume_batches_bounded 9999 2 store_a
           [Get (Record_ entry_a); Get (Record_ entry_a); Get (Record_ entry_a);
            Get Done]
           (Consumer [] [[entry_a; entry_a]; [entry_a]] 1)).
  left. vm_compute. reflexivity.
Defined.

(** ** consume: a record it cannot read *)

(** X13. The consumer does not survive a record whose check raises: it
    ends with that exception in the state it had reached, so the record, the
    records of the batch it was filling and everything still to come are
    never dispatched nor marked done.  An item with a [permission] and no
    [data], which [produce] accepts, is such a record: the consumer ends in
    [KeyError('data')]. *)
Theorem consume_stops_at_unreadable_record (B b : Z) (existing : dict)
    (pre post : list event) (bad : value) (c : consumer) :
  consume B b existing pre = Waiting c ->
  (forall e, skip_unchanged existing bad = Raise e ->
     consume B b existing (pre ++ Get (Record_ bad) :: post) = Failed e c) /\
  (forall d, bad = VDict d -> dict_get (lit "data") d = None ->
     dict_mem (lit "permission") d = true ->
     has_payload bad = Ok true /\
     consume B b existing (pre ++ Get (Record_ bad) :: post)
     = Failed (KeyError (lit "data")) c).
Proof.
  intros H. apply consume_waiting in H as [Hsize H]; [|discriminate].
  assert (Hfail : forall e, skip_unchanged existing bad = Raise e ->
            consume B b existing (pre ++ Get (Record_ bad) :: post) = Failed e c).
  { intros e He. unfold consume. cbv zeta.
    destruct (Z.ltb_spec 0 (Z.min B b)); [|lia].
    rewrite consume_events_app, H. cbn [consume_events]. rewrite He.
    reflexivity. }
  split; [exact Hfail|].
  intros d -> Hd Hp. split.
  - rewrite has_payload_dict, Hp. apply f_equal, orb_true_r.
  - apply Hfail. unfold skip_unchanged. cbn [getitem]. rewrite Hd. reflexivity.
Qed.

Lemma consume_stops_at_unreadable_record_witness :
  consume 9999 25 [] [Get (Record_ entry_a);
                      Get (Record_ (VDict [(lit "permission", VDict [])]));
                      Get (Record_ entry_a); Get Done]
  = Failed (KeyError (lit "data")) (Consumer [entry_a] [] 0).
Proof.
  destruct (consume_stops_at_unreadable_record 9999 25 []
              [Get (Record_ entry_a)] [Get (Record_ entry_a); Get Done]
              (VDict [(lit "permission", VDict [])]) (Consumer [entry_a] [] 0))
    as [_ H]; [reflexivity|].
  apply (H [(lit "permission", VDict [])]); reflexivity.
Defined.

(** ** consume: what reaches publish_records *)

Lemma not_skipped_has_id (existing : dict) (record : value) :
  skip_unchanged existing record = Ok false ->
  exists data,
    getitem record (lit "data") = Ok data /\
    contains (lit "id") data = Ok true.
Proof.
  unfold skip_unchanged.
  destruct (getitem record (lit "data")) as [data|]; [|discriminate].
  cbn [bind]. intros H. exists data. split; [reflexivity|].
  destruct (record_unchanged existing data) as [[|]|] eqn:Er; cbn [bind] in H.
  - destruct (getitem record (lit "id")); discriminate.
  - unfold record_unchanged in Er.
    destruct data as [| | | | | |dd]; try discriminate.
    cbn [getitem contains] in *. unfold dict_mem.
    destruct (dict_get (lit "id") dd); [reflexivity|discriminate].
  - discriminate.
Qed.

Lemma batch_operations_updates (records : list value) :
  Forall (fun record => exists data,
            getitem record (lit "data") = Ok data /\
            contains (lit "id") data = Ok true) records ->
  batch_operations records = Ok (map update_record records).
Proof.
  induction 1 as [|r l (data & Hd & Hc) _ IH]; [reflexivity|].
  cbn [batch_operations map]. rewrite Hd. cbn [bind]. rewrite Hc. cbn [bind].
  rewrite IH. reflexivity.
Qed.

Lemma consume_events_keeps (P : value -> Prop) (size : Z) (existing : dict)
    (events : list event) (c c' : consumer) :
  (forall record, skip_unchanged existing record = Ok false -> P record) ->
  Forall P (concat (dispatched c) ++ batch c) ->
  (consume_events size existing events c = Waiting c' \/
   exists e, consume_events size existing events c = Failed e c') ->
  Forall P (concat (dispatched c') ++ batch c').
Proof.
  intros HP. revert c. induction events as [|ev rest IH]; intros c Hc.
  - cbn. intros [[= <-]|[e H]]; [exact Hc|discriminate].
  - destruct ev as [[record|]|]; cbn [consume_events].
    + destruct (skip_unchanged existing record) as [[|]|e'] eqn:E.
      * apply IH. exact Hc.
      * apply IH.
        assert (Hx : Forall P (concat (dispatched c) ++ batch c ++ [record])).
        { rewrite app_assoc. apply Forall_app_2; [exact Hc|]. auto. }
        match goal with |- context [if ?b then _ else _] => destruct b end.
        -- exact Hx.
        -- match goal with |- context [dispatch ?x] =>
             destruct (dispatch_keeps_records x) as [-> _] end.
           exact Hx.
      * intros [H|[e H]]; [discriminate|]. injection H as _ <-. exact Hc.
    + apply IH. destruct (dispatch_keeps_records (mark_done c)) as [-> _].
      exact Hc.
    + apply IH. destruct (dispatch_keeps_records c) as [-> _]. exact Hc.
Qed.

(** X14. Whatever the consumer hands to [publish_records] is sent as
    updates only.  A record is batched only after its [data] was found to
    have an [id]; one without it ends the consumer in a [KeyError], so the
    creation branch of [publish_records] is never taken for a batch of the
    consumer. *)
Theorem consume_dispatches_updates_only (B b : Z) (existing : dict)
    (events : list event) (c : consumer) :
  (consume B b existing events = Waiting c \/
   exists e, consume B b existing events = Failed e c) ->
  Forall (fun batch => batch_operations batch = Ok (map update_record batch))
    (dispatched c).
Proof.
  intros H.
  assert (H' : consume_events (Z.min B b) existing events (Consumer [] [] 0)
               = Waiting c \/
               exists e, consume_events (Z.min B b) existing events
                           (Consumer [] [] 0) = Failed e c).
  { destruct H as [H|[e H]]; apply consume_waiting in H as [_ H];
      try discriminate; eauto. }
  apply (consume_events_keeps _ _ _ _ _ _ (not_skipped_has_id existing)) in H';
    [|constructor].
  apply Forall_app in H' as [H' _].
  apply List.Forall_forall. intros batch Hin. apply batch_operations_updates.
  apply List.Forall_forall. intros r Hr. rewrite List.Forall_forall in H'.
  apply H'. apply in_concat. eauto.
Qed.

Lemma consume_dispatches_updates_only_witness :
  batch_operations [entry_a; entry_a] =
  Ok [update_record entry_a; update_record entry_a].
Proof.
  assert (H := consume_dispatches_updates_only 9999 25 store_a
                 [Get (Record_ entry_a); Get (Record_ entry_a); Get Done]
                 (Consumer [] [[entry_a; entry_a]] 1)
                 (or_introl eq_refl)).
  apply Forall_cons in H as [H _]. exact H.
Defined.

(** ** consume and the hash cache *)

(** X15. With the cache in the form [fetch_existing] returns it, each
    entry a [[last_modified, hash]] list, the consumer skips nothing: every
    record it pulls goes into a batch, in order, and the only items it marks
    done itself are the sentinels. *)
Theorem consume_loaded_cache_skips_nothing (B b : Z) (existing : dict)
    (events : list event) (c : consumer) :
  cache_store existing ->
  consume B b existing events = Waiting c ->
  concat (dispatched c) ++ batch c = records_of events /\
  task_done c = sentinels_of events.
Proof.
  intros Hs H. apply consume_waiting in H as [_ H]; [|discriminate].
  apply (consume_events_batches_all _ _ _ _ _ Hs) in H as [H1 H2].
  exact (conj H1 H2).
Qed.

Lemma consume_loaded_cache_skips_nothing_witness :
  concat [[entry_a; entry_a]] ++ [] =
    records_of [Get (Record_ entry_a); Get (Record_ entry_a); Get Done] /\
  1%nat = sentinels_of [Get (Record_ entry_a); Get (Record_ entry_a); Get Done].
Proof.
  apply (consume_loaded_cache_skips_nothing 9999 25 store_a _
           (Consumer [] [[entry_a; entry_a]] 1)).
  - intros k v. unfold store_a. cbn [dict_get].
    destruct (str_eqb k (lit "a")); [|discriminate].
    intros [= <-]. eexists _, _. reflexivity.
  - vm_compute. reflexivity.
Defined.

Lemma skippable_skipped (existing : dict) (record : value) :
  skippable existing record -> skip_unchanged existing record = Ok true.
Proof.
  intros (data & k & h & x & Hd & Hi & Hg & Hh & Hx).
  rewrite (skip_unchanged_bare_digest existing record data k h Hd Hi Hg Hh), Hx.
  reflexivity.
Qed.

Lemma consume_events_all_skipped (size : Z) (existing : dict)
    (events : list event) (c : consumer) :
  Forall (skippable existing) (records_of events) ->
  batch c = [] ->
  consume_events size existing events c =
  Waiting (Consumer [] (dispatched c)
             (task_done c + length (pulled events))).
Proof.
  revert c. induction events as [|ev rest IH]; intros [bt dp td] Hall Hb;
    cbn [batch] in Hb; subst bt.
  - cbn. rewrite Nat.add_0_r. reflexivity.
  - destruct ev as [[record|]|]; cbn [consume_events records_of pulled length] in *.
    + apply Forall_cons in Hall as [Hr Hall].
      rewrite (skippable_skipped _ _ Hr), IH by auto.
      cbn [mark_done batch dispatched task_done]. do 2 f_equal. lia.
    + rewrite IH by auto. cbn. do 2 f_equal. lia.
    + rewrite IH by auto. reflexivity.
Qed.

(** X16. The skip, where it works.  When the cache maps the id of every
    record to the bare digest of its [data] and the queued items carry an
    [id] of their own, the consumer marks each item done as it pulls it and
    dispatches nothing. *)
Theorem consume_skips_unchanged_records (B b : Z) (existing : dict)
    (events : list event) :
  0 < Z.min B b ->
  Forall (skippable existing) (records_of events) ->
  consume B b existing events =
  Waiting (Consumer [] [] (length (pulled events))).
Proof.
  intros Hsize Hall. unfold consume. cbv zeta.
  destruct (Z.ltb_spec 0 (Z.min B b)); [|lia].
  rewrite consume_events_all_skipped by auto. reflexivity.
Qed.

Lemma consume_skips_unchanged_records_witness :
  let entry := VDict [(lit "id", VStr (lit "a")); (lit "data", data_a)] in
  consume 9999 25 [(lit "a", VStr hash_a)]
    [Get (Record_ entry); Timeout; Get (Record_ entry); Get Done]
  = Waiting (Consumer [] [] 3).
Proof.
  intros entry.
  apply (consume_skips_unchanged_records 9999 25 [(lit "a", VStr hash_a)]
           [Get (Record_ entry); Timeout; Get (Record_ entry); Get Done]).
  - reflexivity.
  - assert (Hs : skippable [(lit "a", VStr hash_a)] entry).
    { exists data_a, (lit "a"), hash_a, (VStr (lit "a")).
      repeat split; vm_compute; reflexivity. }
    repeat constructor; exact Hs.
Defined.

(** ** produce and consume together, without a cache *)

Lemma has_data_id_payload (record : value) :
  has_data_id record -> has_payload record = Ok true.
Proof.
  intros (d & data & id & -> & Hd & _). rewrite has_payload_dict.
  unfold dict_mem. rewrite Hd. reflexivity.
Qed.

Lemma has_data_id_batched (record : value) :
  has_data_id record -> skip_unchanged [] record = Ok false.
Proof.
  intros (d & data & id & -> & Hd & Hi).
  unfold skip_unchanged, record_unchanged. cbn [getitem]. rewrite Hd.
  cbn [bind getitem]. rewrite Hi. reflexivity.
Qed.

Lemma pulled_nil (events : list event) :
  pulled events = [] -> records_of events = [] /\ sentinels_of events = O.
Proof.
  induction events as [|[x|] rest IH]; cbn [pulled records_of sentinels_of];
    [auto|discriminate|exact IH].
Qed.

Lemma pulled_queue (events : list event) (records : list value) :
  pulled events = map Record_ records ++ [Done] ->
  records_of events = records /\ sentinels_of events = 1%nat.
Proof.
  revert records. induction events as [|[[r|]|] rest IH]; intros records;
    cbn [pulled records_of sentinels_of].
  - destruct records; discriminate.
  - destruct records as [|r' records]; cbn [map app]; [discriminate|].
    intros [= -> H]. destruct (IH _ H) as [-> ->]. auto.
  - destruct records as [|r' records]; cbn [map app]; [|discriminate].
    intros [= H]. destruct (pulled_nil _ H) as [-> ->]. auto.
  - apply IH.
Qed.

Lemma consume_events_idle (size : Z) (existing : dict) (events : list event)
    (c : consumer) :
  pulled events = [] -> batch c = [] ->
  consume_events size existing events c = Waiting c.
Proof.
  intros Hp Hb. induction events as [|[x|] rest IH]; cbn [pulled] in Hp;
    [reflexivity|discriminate|].
  cbn [consume_events]. unfold dispatch. rewrite Hb. auto.
Qed.

Lemma dispatch_batch (c : consumer) : batch (dispatch c) = [].
Proof. unfold dispatch. destruct (batch c) eqn:E; [exact E|reflexivity]. Qed.

(** Once the sentinel has been pulled, with nothing after it, the batch
    being filled is empty: everything batched has been dispatched. *)
Lemma consume_events_flushed (size : Z) (existing : dict)
    (events : list event) (q : list item) (c c' : consumer) :
  pulled events = q ++ [Done] ->
  consume_events size existing events c = Waiting c' ->
  batch c' = [].
Proof.
  revert q c. induction events as [|[[r|]|] rest IH]; intros q c;
    cbn [pulled consume_events].
  - destruct q; discriminate.
  - destruct q as [|x q]; cbn [app]; [discriminate|]. intros [= _ Hq].
    destruct (skip_unchanged existing r) as [[|]|]; [| |discriminate];
      apply (IH q); exact Hq.
  - destruct q as [|x q]; cbn [app]; intros [= Hq].
    + rewrite consume_events_idle by auto using dispatch_batch.
      intros [= <-]. apply dispatch_batch.
    + apply (IH q). congruence.
  - apply IH.
Qed.

Lemma consume_events_survives (size : Z) (existing : dict)
    (events : list event) (c : consumer) :
  Forall (fun r => exists u, skip_unchanged existing r = Ok u)
    (records_of events) ->
  exists c', consume_events size existing events c = Waiting c'.
Proof.
  revert c. induction events as [|[[r|]|] rest IH]; intros c;
    cbn [records_of consume_events]; eauto.
  intros H. apply Forall_cons in H as [[u Hu] H]. rewrite Hu.
  destruct u; eauto.
Qed.

(** X17. [produce] and [consume] together when nothing is to be skipped
    (an empty [existing], as [main] has it without [--skip]): if every input
    item is a [{"data": {"id": ...}}], whatever the timeouts, production
    succeeds, every record is dispatched exactly once and in input order,
    nothing stays in the consumer, and the sentinel it marked done plus the
    records of the dispatched batches make up all the items put on the
    queue. *)
Theorem produce_consume_without_cache (B b : Z) (records : list value)
    (events : list event) :
  0 < Z.min B b ->
  Forall has_data_id records ->
  pulled events = snd (produce records []) ->
  fst (produce records []) = Ok tt /\
  exists c,
    consume B b [] events = Waiting c /\
    concat (dispatched c) = records /\
    batch c = [] /\
    task_done c = 1%nat /\
    (task_done c + length (concat (dispatched c)))%nat =
      length (snd (produce records [])).
Proof.
  intros Hsize Hall.
  rewrite (produce_accepted records []); cbn [fst snd app].
  2:{ eapply Forall_impl; [exact Hall|]. apply has_data_id_payload. }
  intros Hp. split; [reflexivity|].
  destruct (pulled_queue _ _ Hp) as [Hr Hs].
  assert (Hu : Forall (fun r => exists u, skip_unchanged [] r = Ok u)
                 (records_of events)).
  { rewrite Hr. eapply Forall_impl; [exact Hall|].
    intros r H. exists false. apply has_data_id_batched, H. }
  destruct (consume_events_survives (Z.min B b) [] events (Consumer [] [] 0) Hu)
    as [c Hc].
  exists c.
  assert (Hcons : consume B b [] events = Waiting c).
  { unfold consume. cbv zeta. destruct (Z.ltb_spec 0 (Z.min B b)); [exact Hc|lia]. }
  pose proof (consume_events_flushed _ _ _ _ _ _ Hp Hc) as Hb.
  destruct (consume_accounts_for_every_item_aux B b [] events c Hcons)
    as (H1 & H2).
  rewrite Hr, Hs, Hb, app_nil_r in *.
  assert (Hf : List.filter (batched []) records = records).
  { clear -Hall. induction Hall as [|r l Hr' _ IH]; [reflexivity|].
    cbn [List.filter]. unfold batched at 1.
    rewrite (has_data_id_batched _ Hr'), IH. reflexivity. }
  assert (Hk : List.filter (skipped []) records = []).
  { clear -Hall. induction Hall as [|r l Hr' _ IH]; [reflexivity|].
    cbn [List.filter]. unfold skipped at 1.
    rewrite (has_data_id_batched _ Hr'), IH. reflexivity. }
  rewrite Hf in H1. rewrite Hk in H2. cbn [length] in H2.
  repeat split; [exact Hcons|exact H1|lia|].
  rewrite H1, length_app, length_map. cbn [length]. lia.
Qed.

Lemma produce_consume_without_cache_witness :
  exists c,
    consume 9999 25 []
      [Get (Record_ entry_a); Timeout; Get (Record_ entry_a); Get Done]
    = Waiting c /\
    concat (dispatched c) = [entry_a; entry_a] /\
    batch c = [] /\
    task_done c = 1%nat.
Proof.
  destruct (produce_consume_without_cache 9999 25 [entry_a; entry_a]
              [Get (Record_ entry_a); Timeout; Get (Record_ entry_a); Get Done])
    as (_ & c & H1 & H2 & H3 & H4 & _).
  - reflexivity.
  - assert (H : has_data_id entry_a).
    { exists [(lit "data", data_a)],
        [(lit "id", VStr (lit "a")); (lit "title", VStr (lit "x"))], (lit "a").
      repeat split; reflexivity. }
    repeat constructor; exact H.
  - reflexivity.
  - exists c. auto.
Defined.

(** ** The full scan *)

Lemma scan_pages_serves (request : session) (endpoint : str) (params : dict)
    (pages : list (list value)) :
  serves request endpoint params pages ->
  forall (records : dict) (fuel : nat),
    (length pages <= fuel)%nat ->
    scan_pages fuel request endpoint params records =
    Some (fetch_existing records pages).
Proof.
  induction 1 as [endpoint params body next_page page Hreq Hnp Hdata
                 |endpoint params body c next page pages Hreq Hdata _ IH];
    intros records fuel Hfuel.
  - destruct fuel as [|fuel]; [cbn in Hfuel; lia|].
    cbn [scan_pages fetch_existing]. rewrite Hreq, Hdata. cbn [bind iterate].
    destruct (store_records records page) as [r1|e]; cbn [bind]; [|reflexivity].
    destruct Hnp as [->| ->]; reflexivity.
  - destruct fuel as [|fuel]; [cbn in Hfuel; lia|].
    cbn [scan_pages fetch_existing]. rewrite Hreq, Hdata. cbn [bind iterate].
    destruct (store_records records page) as [r1|e]; cbn [bind]; [|reflexivity].
    apply IH. cbn [length] in Hfuel. lia.
Qed.

(** X18. The scan without a cache file follows the [Next-Page] links: on
    a server that serves the collection as a chain of pages ending with a
    page that has no link (or an empty one), it makes one request per page,
    the first with [_since=None] and the others without, and returns what
    [fetch_existing]'s loop builds from those pages, or the exception of the
    first record that fails. *)
Theorem fetch_existing_scan_follows_links (request : session)
    (records_endpoint : str) (pages : list (list value)) (fuel : nat) :
  serves request records_endpoint [(lit "_since", VNone)] pages ->
  (length pages <= fuel)%nat ->
  fetch_existing_scan fuel request records_endpoint =
  Some (fetch_existing [] pages).
Proof.
  intros H Hfuel. unfold fetch_existing_scan.
  apply scan_pages_serves; assumption.
Qed.

Lemma fetch_existing_scan_follows_links_witness :
  let request : session := fun endpoint params =>
    if str_eqb endpoint (lit "/records") then
      (VDict [(lit "data", VList [remote_a])], Some (lit "/records?page=2"))
    else (VDict [(lit "data", VList [])], None) in
  fetch_existing_scan 2 request (lit "/records") = Some (Ok store_a).
Proof.
  intros request.
  rewrite (fetch_existing_scan_follows_links request (lit "/records")
             [[remote_a]; []] 2).
  - vm_compute. reflexivity.
  - eapply serves_next; [reflexivity|reflexivity|].
    eapply serves_last; [reflexivity|left; reflexivity|reflexivity].
  - cbn. lia.
Defined.

Lemma store_record_dict (records d : dict) (k : str) (last_modified : value) :
  dict_get (lit "last_modified") d = Some last_modified ->
  dict_get (lit "id") d = Some (VStr k) ->
  ascii_floats (VDict d) = true ->
  exists h,
    store_record records (VDict d) =
    Ok (dict_set k (VList [last_modified; VStr h]) records).
Proof.
  intros Hlm Hid Hf. destruct (hash_record_mutate_ok d Hf) as (h & _ & Hh & _).
  exists h. unfold store_record. cbn [getitem]. rewrite Hlm. cbn [bind].
  rewrite Hh. cbn [bind fst snd getitem].
  rewrite stripVolatile_keeps by (vm_compute; discriminate).
  rewrite Hid. reflexivity.
Qed.

Lemma scan_pages_no_cache (request : session) :
  (forall endpoint params,
      exists c next, snd (request endpoint params) = Some (c :: next)) ->
  forall fuel endpoint params records records',
    scan_pages fuel request endpoint params records <> Some (Ok records').
Proof.
  intros Hreq fuel. induction fuel as [|fuel IH];
    intros endpoint params records records'; [discriminate|].
  cbn [scan_pages]. destruct (Hreq endpoint params) as (c & next & Hn).
  destruct (request endpoint params) as [record_resp next_page].
  cbn [snd] in Hn. subst next_page.
  destruct (data <- getitem record_resp (lit "data") ;;
            new_records <- iterate data ;;
            store_records records new_records) as [r1|e];
    [apply IH|discriminate].
Qed.

Lemma scan_pages_runs_on (request : session) :
  (forall endpoint params,
      exists c next, snd (request endpoint params) = Some (c :: next)) ->
  (forall endpoint params records,
      exists data new_records records',
        getitem (fst (request endpoint params)) (lit "data") = Ok data /\
        iterate data = Ok new_records /\
        store_records records new_records = Ok records') ->
  forall fuel endpoint params records,
    scan_pages fuel request endpoint params records = None.
Proof.
  intros Hreq Hok fuel. induction fuel as [|fuel IH];
    intros endpoint params records; [reflexivity|].
  cbn [scan_pages]. destruct (Hreq endpoint params) as (c & next & Hn).
  destruct (Hok endpoint params records) as (data & page & r1 & Hd & Hi & Hs).
  destruct (request endpoint params) as [record_resp next_page].
  cbn [fst snd] in *. subst next_page.
  rewrite Hd. cbn [bind]. rewrite Hi. cbn [bind]. rewrite Hs. apply IH.
Qed.

(** X19. The scan has no other way out than a response without a
    [Next-Page].  On a server that links every page to a next one, whatever
    the pages hold, it never returns a cache, however many requests it is
    allowed: it can only end in the exception of a page or of a record, and
    when every page can be read and its records stored it does not end at
    all. *)
Theorem scan_pages_never_ends (request : session) :
  (forall endpoint params,
      exists c next, snd (request endpoint params) = Some (c :: next)) ->
  (forall fuel endpoint params records records',
      scan_pages fuel request endpoint params records <> Some (Ok records')) /\
  ((forall endpoint params records,
       exists data new_records records',
         getitem (fst (request endpoint params)) (lit "data") = Ok data /\
         iterate data = Ok new_records /\
         store_records records new_records = Ok records') ->
   forall fuel endpoint params records,
     scan_pages fuel request endpoint params records = None).
Proof.
  intros Hreq. split.
  - apply scan_pages_no_cache, Hreq.
  - intros Hok. apply scan_pages_runs_on; assumption.
Qed.

(** A server that answers every request with the record [remote_a] and a
    link, and one whose second page holds a record without [id]. *)
Lemma scan_pages_never_ends_witness :
  scan_pages 50
    (fun _ _ => (VDict [(lit "data", VList [remote_a])], Some (lit "/records")))
    (lit "/records") [(lit "_since", VNone)] []
  = None /\
  forall fuel records',
    scan_pages fuel
      (fun _ params =>
         (VDict [(lit "data",
                  VList [if dict_mem (lit "_since") params then remote_a
                         else VDict [(lit "last_modified", VInt 1)]])],
          Some (lit "/records")))
      (lit "/records") [(lit "_since", VNone)] []
    <> Some (Ok records').
Proof.
  split.
  - apply scan_pages_never_ends.
    + intros endpoint params. eexists _, _. reflexivity.
    + intros endpoint params records.
      destruct (store_record_dict records
                  [(lit "id", VStr (lit "a")); (lit "last_modified", VInt 5);
                   (lit "title", VStr (lit "x"))] (lit "a") (VInt 5))
        as [h Hh]; [reflexivity..|].
      eexists _, [remote_a], _. cbn [fst].
      split; [reflexivity|]. split; [reflexivity|].
      cbn [store_records]. unfold remote_a. rewrite Hh. reflexivity.
  - intros fuel records'. apply scan_pages_never_ends.
    intros endpoint params. eexists _, _. reflexivity.
Defined.

(** ** The cache and the records to publish *)

(** X20. The digest [fetch_existing] files under an id is the digest
    [hash_record] gives for any record with the same fields apart from
    [last_modified] and [schema], in whatever key order: the server's copy
    of a record and the local record it came from hash alike. *)
Theorem cached_digest_matches_local (records records' : dict)
    (remote local : dict) :
  store_record records (VDict remote) = Ok records' ->
  NoDup (map fst remote) -> NoDup (map fst local) ->
  (forall k, k <> lit "last_modified" -> k <> lit "schema" ->
             dict_get k remote = dict_get k local) ->
  exists k last_modified h,
    dict_get (lit "id") local = Some (VStr k) /\
    dict_get k records' = Some (VList [last_modified; VStr h]) /\
    hash_record (VDict local) = Ok h.
Proof.
  intros H Hr Hl Hsame.
  apply store_record_ok in H as (d & k & lm & h & [= <-] & Hid & _ & Hh & ->).
  exists k, lm, h. repeat split.
  - rewrite <- Hsame by (vm_compute; discriminate). exact Hid.
  - rewrite dict_get_set, str_eqb_refl. reflexivity.
  - rewrite <- Hh. symmetry. apply hash_record_ext; assumption.
Qed.

Lemma cached_digest_matches_local_witness :
  exists k last_modified h,
    getitem data_a (lit "id") = Ok (VStr k) /\
    dict_get k store_a = Some (VList [last_modified; VStr h]) /\
    hash_record data_a = Ok h.
Proof.
  destruct (cached_digest_matches_local [] store_a
              [(lit "id", VStr (lit "a")); (lit "last_modified", VInt 5);
               (lit "title", VStr (lit "x"))]
              [(lit "title", VStr (lit "x")); (lit "id", VStr (lit "a"))])
    as (k & lm & h & Hk & Hg & Hh).
  - vm_compute. reflexivity.
  - apply (bool_decide_unpack _). vm_compute. reflexivity.
  - apply (bool_decide_unpack _). vm_compute. reflexivity.
  - intros k Hlm Hs.
    destruct (str_eqb k (lit "id")) eqn:Eid.
    { apply str_eqb_eq in Eid. subst k. reflexivity. }
    destruct (str_eqb k (lit "title")) eqn:Et.
    { apply str_eqb_eq in Et. subst k. reflexivity. }
    destruct (str_eqb k (lit "last_modified")) eqn:Elm.
    { apply str_eqb_eq in Elm. contradiction. }
    cbn [dict_get]. rewrite Eid, Et, Elm. reflexivity.
  - vm_compute in Hk. injection Hk as <-.
    exists (lit "a"), lm, h. repeat split; [exact Hg|].
    rewrite <- Hh. vm_compute. reflexivity.
Defined.
